(** * generate_viewer.py: bundling conversation transcripts into a viewer

    A shallow embedding of [src/generate_viewer.py] and of the parts of
    the Python runtime its single function [main] calls:

    - [str] methods ([startswith], [find], [replace], [join]);
    - [pathlib.Path.glob] with the pattern [*.txt];
    - text-mode [open(...).read()]: UTF-8 decoding with the [strict] and
      [ignore] error handlers followed by universal-newline translation,
      and text-mode writing;
    - [json.dumps(d, ensure_ascii=False, indent=2)] on a [dict] from
      [str] to [str], and [json.loads] on the same fragment;
    - [print], and the exception flow of [try] and [except Exception].

    Text is a list of code points, file contents are lists of bytes, the
    [dict] is an association list in insertion order, and [main] runs in
    a state-and-exception monad over a record of the files it touches and
    the standard output.

    The platform is taken to be POSIX: names are matched case-sensitively
    and writing in text mode leaves [\n] as it is. Within one run the
    files do not change under the program.

    The program is embedded for two standard outputs. [main] runs on one
    that takes every line. [main_strict] runs on the default of a UTF-8
    locale, where [print] raises on a line that cannot be encoded; the
    two agree as long as the names of the files and the texts of the
    errors can be encoded. *)

From Stdlib.Strings Require Import String Ascii Byte.
From Stdlib Require Import DecimalString.
From Stdlib Require Import List NArith Bool Lia Arith.
Import ListNotations.

Local Open Scope N_scope.
Local Open Scope list_scope.

(* ================================================================== *)
(** * Text *)
(* ================================================================== *)

(** A Python [str] is a sequence of Unicode code points. *)
Definition char := N.
Definition str := list char.

(** [ord] of an ASCII character, and an ASCII literal as a [str]. *)
Definition ord (a : ascii) : char := N_of_ascii a.
Definition lit (s : string) : str := map ord (list_ascii_of_string s).

(** The characters the program names that cannot stand in a literal. *)
Definition QUOTE : char := 34.
Definition BACKSLASH : char := 92.
Definition LF : char := 10.
Definition CR : char := 13.
Definition CHECK_MARK : char := 10003.

(** [a == b] on [str]. *)
Fixpoint str_eqb (a b : str) : bool :=
  match a, b with
  | [], [] => true
  | x :: a', y :: b' => (x =? y) && str_eqb a' b'
  | _, _ => false
  end.

(** [s.startswith(prefix)]. *)
Fixpoint startswith (s prefix : str) {struct prefix} : bool :=
  match prefix with
  | [] => true
  | p :: prefix' =>
      match s with
      | [] => false
      | c :: s' => (c =? p) && startswith s' prefix'
      end
  end.

(** [s.find(sub)]: the lowest index where [sub] starts, [None] for -1. *)
Fixpoint find (s sub : str) : option nat :=
  if startswith s sub then Some O
  else match s with
       | [] => None
       | _ :: s' => option_map S (find s' sub)
       end.

(** The start indices of [sub] in [s], and how many there are. For a
    [sub] that cannot overlap itself this is [s.count(sub)]. *)
Definition occurs_at (sub s : str) (i : nat) : bool :=
  startswith (skipn i s) sub.

Definition positions (sub s : str) : list nat :=
  filter (occurs_at sub s) (seq O (S (length s))).

Definition occurrences (sub s : str) : nat := length (positions sub s).

(** [s.replace("", new, count)]: [new] goes before each of the first
    [count] characters, and after the last one if any count is left. *)
Fixpoint interleave (s new : str) (count : nat) : str :=
  match count with
  | O => s
  | S count' =>
      new ++ match s with
             | [] => []
             | c :: s' => c :: interleave s' new count'
             end
  end.

(** [s.replace(old, new, count)] for a non-empty [old]: the first [count]
    occurrences, found left to right and not overlapping. *)
Fixpoint replace_found (s old new : str) (count : nat) : str :=
  match count with
  | O => s
  | S count' =>
      match find s old with
      | None => s
      | Some i =>
          firstn i s ++ new ++
          replace_found (skipn (i + length old) s) old new count'
      end
  end.

Definition replace (s old new : str) (count : nat) : str :=
  match old with
  | [] => interleave s new count
  | _ :: _ => replace_found s old new count
  end.

(** [sep.join(parts)]. *)
Fixpoint join (sep : str) (parts : list str) : str :=
  match parts with
  | [] => []
  | [p] => p
  | p :: parts' => p ++ sep ++ join sep parts'
  end.

(** [str(n)] for a non-negative [int]. *)
Definition str_of_nat (n : nat) : str :=
  lit (NilEmpty.string_of_uint (Nat.to_uint n)).

(* ================================================================== *)
(** * The dataset: a [dict] from [str] to [str] *)
(* ================================================================== *)

(** Insertion-ordered, as Python's [dict]; the keys of a [dict] are
    pairwise distinct. *)
Definition dict := list (str * str).

(** [d[k] = v]: an existing key keeps its place. *)
Fixpoint dict_set (d : dict) (k v : str) : dict :=
  match d with
  | [] => [(k, v)]
  | (k', v') :: d' =>
      if str_eqb k' k then (k', v) :: d' else (k', v') :: dict_set d' k v
  end.

(** [d.get(k)]. *)
Fixpoint dict_get (d : dict) (k : str) : option str :=
  match d with
  | [] => None
  | (k', v') :: d' => if str_eqb k' k then Some v' else dict_get d' k
  end.

(** [dict(pairs)]. *)
Definition dict_of_pairs (pairs : list (str * str)) : dict :=
  fold_left (fun d kv => dict_set d (fst kv) (snd kv)) pairs [].

Definition keys (d : dict) : list str := map fst d.

(* ================================================================== *)
(** * Exceptions *)
(* ================================================================== *)

(** The exceptions the modelled calls raise; all of them are subclasses
    of [Exception], so [except Exception] catches each. An error of the
    operating system carries [str(e)], the text that names the error and
    the path, as the system gave it. *)
Inductive exn : Type :=
| FileNotFoundError (msg : str)
| OSError (msg : str)
| UnicodeDecodeError
| UnicodeEncodeError.

(** [str(e)], as the diagnostics print it. The program prints the text
    of no codec error: a decoding error comes from the template alone
    and ends the run, and an encoding error comes with a name that
    cannot be printed either. *)
Definition exn_str (e : exn) : str :=
  match e with
  | FileNotFoundError msg => msg
  | OSError msg => msg
  | UnicodeDecodeError => lit "'utf-8' codec can't decode bytes"
  | UnicodeEncodeError => lit "'utf-8' codec can't encode characters"
  end.

Inductive result (A : Type) : Type :=
| Ok (a : A)
| Raised (e : exn).
Arguments Ok {A} a.
Arguments Raised {A} e.

(* ================================================================== *)
(** * [Path.glob]: matching a name against a pattern *)
(* ================================================================== *)

(** [fnmatch.fnmatchcase], for patterns built from [*], [?] and literal
    characters (the pattern of the program has no bracket expression).
    [*] matches any run of characters, a leading dot included, as
    [pathlib] does. *)
Fixpoint wildcard (pat : str) : str -> bool :=
  match pat with
  | [] => fun name => match name with [] => true | _ :: _ => false end
  | p :: pat' =>
      if p =? 42 then
        fix star (name : str) : bool :=
          wildcard pat' name
          || match name with [] => false | _ :: name' => star name' end
      else if p =? 63 then
        fun name =>
          match name with [] => false | _ :: name' => wildcard pat' name' end
      else
        fun name =>
          match name with
          | [] => false
          | c :: name' => (c =? p) && wildcard pat' name'
          end
  end.

Definition fnmatchcase (name pat : str) : bool := wildcard pat name.

(* ================================================================== *)
(** * Text files: UTF-8 and universal newlines *)
(* ================================================================== *)

Definition bytes := list byte.

Definition byte_of_N (n : N) : byte :=
  match Byte.of_N n with Some b => b | None => x00 end.

(** [IS_CONTINUATION_BYTE]. *)
Definition continuation (ch : N) : bool := (0x80 <=? ch) && (ch <? 0xC0).

(** The UTF-8 decoder of CPython, one entry per decoded character or
    per error it reports: [Some c] for a character, [None] for a
    maximal invalid run (an invalid start byte, a lead byte cut short by
    a byte that cannot continue it, or a truncated sequence at the end
    of the data). After an error decoding resumes behind the run. *)
Fixpoint utf8_scan (s : bytes) : list (option char) :=
  match s with
  | [] => []
  | b1 :: s1 =>
      let ch := Byte.to_N b1 in
      if ch <? 0x80 then Some ch :: utf8_scan s1
      else if ch <? 0xC2 then None :: utf8_scan s1
      else if ch <? 0xE0 then
        match s1 with
        | [] => [None]
        | b2 :: s2 =>
            let ch2 := Byte.to_N b2 in
            if continuation ch2 then
              Some (N.shiftl ch 6 + ch2 - (N.shiftl 0xC0 6 + 0x80))
              :: utf8_scan s2
            else None :: utf8_scan s1
        end
      else if ch <? 0xF0 then
        match s1 with
        | [] => [None]
        | b2 :: s2 =>
            let ch2 := Byte.to_N b2 in
            if negb (continuation ch2)
               || (if ch2 <? 0xA0 then ch =? 0xE0 else ch =? 0xED)
            then None :: utf8_scan s1
            else
              match s2 with
              | [] => [None]
              | b3 :: s3 =>
                  let ch3 := Byte.to_N b3 in
                  if continuation ch3 then
                    Some (N.shiftl ch 12 + N.shiftl ch2 6 + ch3
                          - (N.shiftl 0xE0 12 + N.shiftl 0x80 6 + 0x80))
                    :: utf8_scan s3
                  else None :: utf8_scan s2
              end
        end
      else if ch <? 0xF5 then
        match s1 with
        | [] => [None]
        | b2 :: s2 =>
            let ch2 := Byte.to_N b2 in
            if negb (continuation ch2)
               || (if ch2 <? 0x90 then ch =? 0xF0 else ch =? 0xF4)
            then None :: utf8_scan s1
            else
              match s2 with
              | [] => [None]
              | b3 :: s3 =>
                  let ch3 := Byte.to_N b3 in
                  if negb (continuation ch3) then None :: utf8_scan s2
                  else
                    match s3 with
                    | [] => [None]
                    | b4 :: s4 =>
                        let ch4 := Byte.to_N b4 in
                        if continuation ch4 then
                          Some (N.shiftl ch 18 + N.shiftl ch2 12
                                + N.shiftl ch3 6 + ch4
                                - (N.shiftl 0xF0 18 + N.shiftl 0x80 12
                                   + N.shiftl 0x80 6 + 0x80))
                          :: utf8_scan s4
                        else None :: utf8_scan s3
                    end
              end
        end
      else None :: utf8_scan s1
  end.

(** The [errors] argument of [open]. *)
Inductive errors : Type := Strict | Ignore.

Fixpoint decoded (items : list (option char)) : str :=
  match items with
  | [] => []
  | Some c :: items' => c :: decoded items'
  | None :: items' => decoded items'
  end.

Definition is_decoded (item : option char) : bool :=
  match item with Some _ => true | None => false end.

(** [bytes.decode('utf-8', errors)]: [strict] raises at the first error,
    [ignore] leaves the invalid runs out. *)
Definition utf8_decode (h : errors) (s : bytes) : result str :=
  let items := utf8_scan s in
  match h with
  | Ignore => Ok (decoded items)
  | Strict =>
      if forallb is_decoded items then Ok (decoded items)
      else Raised UnicodeDecodeError
  end.

(** [str.encode('utf-8')] of one character; surrogates cannot be
    encoded. *)
Definition utf8_encode_char (c : char) : option bytes :=
  if c <? 0x80 then Some [byte_of_N c]
  else if c <? 0x800 then
    Some [byte_of_N (N.lor 0xC0 (N.shiftr c 6));
          byte_of_N (N.lor 0x80 (N.land c 0x3F))]
  else if (0xD800 <=? c) && (c <? 0xE000) then None
  else if c <? 0x10000 then
    Some [byte_of_N (N.lor 0xE0 (N.shiftr c 12));
          byte_of_N (N.lor 0x80 (N.land (N.shiftr c 6) 0x3F));
          byte_of_N (N.lor 0x80 (N.land c 0x3F))]
  else if c <? 0x110000 then
    Some [byte_of_N (N.lor 0xF0 (N.shiftr c 18));
          byte_of_N (N.lor 0x80 (N.land (N.shiftr c 12) 0x3F));
          byte_of_N (N.lor 0x80 (N.land (N.shiftr c 6) 0x3F));
          byte_of_N (N.lor 0x80 (N.land c 0x3F))]
  else None.

Fixpoint utf8_encode (s : str) : option bytes :=
  match s with
  | [] => Some []
  | c :: s' =>
      match utf8_encode_char c, utf8_encode s' with
      | Some b, Some bs => Some (b ++ bs)
      | _, _ => None
      end
  end.

(** Universal newlines on reading ([newline=None]): [\r\n] and a lone
    [\r] become [\n]. *)
Fixpoint universal_newlines (s : str) : str :=
  match s with
  | [] => []
  | c :: s' =>
      if c =? CR then
        LF :: match s' with
              | [] => []
              | c' :: s'' =>
                  if c' =? LF then universal_newlines s''
                  else universal_newlines s'
              end
      else c :: universal_newlines s'
  end.

(* ================================================================== *)
(** * [json.dumps] with [ensure_ascii=False] and [indent=2] *)
(* ================================================================== *)

Definition hex_digit (n : N) : char := if n <? 10 then 48 + n else 87 + n.

(** [ESCAPE_DCT]: the quote, the backslash and the control characters
    are escaped, the short escapes first and [\u00xx] for the others;
    every other character, ASCII or not, stands for itself. *)
Definition escape_char (c : char) : str :=
  if c =? BACKSLASH then [BACKSLASH; BACKSLASH]
  else if c =? QUOTE then [BACKSLASH; QUOTE]
  else if c =? 8 then BACKSLASH :: lit "b"
  else if c =? 12 then BACKSLASH :: lit "f"
  else if c =? 10 then BACKSLASH :: lit "n"
  else if c =? 13 then BACKSLASH :: lit "r"
  else if c =? 9 then BACKSLASH :: lit "t"
  else if c <? 0x20 then
    BACKSLASH :: lit "u00" ++ [hex_digit (c / 16); hex_digit (c mod 16)]
  else [c].

(** [py_encode_basestring]. *)
Definition encode_basestring (s : str) : str :=
  QUOTE :: flat_map escape_char s ++ [QUOTE].

(** The separators of [_iterencode_dict] at nesting level 1 with
    [indent=2]. *)
Definition newline_indent : str := LF :: lit "  ".
Definition item_separator : str := lit "," ++ newline_indent.
Definition key_separator : str := lit ": ".

Definition encode_item (kv : str * str) : str :=
  encode_basestring (fst kv) ++ key_separator ++ encode_basestring (snd kv).

(** [json.dumps(d, ensure_ascii=False, indent=2)] for a [dict] whose
    keys and values are [str]. *)
Definition json_dumps (d : dict) : str :=
  match d with
  | [] => lit "{}"
  | _ :: _ =>
      lit "{" ++ newline_indent ++ join item_separator (map encode_item d)
      ++ [LF] ++ lit "}"
  end.

(* ================================================================== *)
(** * [json.loads], for objects whose values are strings *)
(* ================================================================== *)

(** [WHITESPACE]. *)
Definition is_ws (c : char) : bool :=
  (c =? 32) || (c =? 9) || (c =? 10) || (c =? 13).

Fixpoint skip_ws (s : str) : str :=
  match s with
  | [] => []
  | c :: s' => if is_ws c then skip_ws s' else s
  end.

Definition hex_value (c : char) : option N :=
  if (48 <=? c) && (c <=? 57) then Some (c - 48)
  else if (97 <=? c) && (c <=? 102) then Some (c - 87)
  else if (65 <=? c) && (c <=? 70) then Some (c - 55)
  else None.

(** [_decode_uXXXX]: four hexadecimal digits. *)
Definition decode_uXXXX (h1 h2 h3 h4 : char) : option N :=
  match hex_value h1, hex_value h2, hex_value h3, hex_value h4 with
  | Some a, Some b, Some c, Some d => Some (((a * 16 + b) * 16 + c) * 16 + d)
  | _, _, _, _ => None
  end.

(** The table [BACKSLASH] of json.decoder. *)
Definition backslash_escape (esc : char) : option char :=
  if esc =? QUOTE then Some QUOTE
  else if esc =? BACKSLASH then Some BACKSLASH
  else if esc =? 47 then Some 47
  else if esc =? 98 then Some 8
  else if esc =? 102 then Some 12
  else if esc =? 110 then Some 10
  else if esc =? 114 then Some 13
  else if esc =? 116 then Some 9
  else None.

Definition append_char (c : char) (r : option (str * str))
  : option (str * str) :=
  match r with
  | Some (chunk, rest) => Some (c :: chunk, rest)
  | None => None
  end.

(** [py_scanstring] with [strict=True], from behind the opening quote:
    the decoded string and the text behind the closing quote, [None]
    where the decoder raises [JSONDecodeError]. *)
Fixpoint scanstring (s : str) : option (str * str) :=
  match s with
  | [] => None
  | c :: s1 =>
      if c =? QUOTE then Some ([], s1)
      else if c =? BACKSLASH then
        match s1 with
        | [] => None
        | esc :: s2 =>
            if esc =? 117 then
              match s2 with
              | h1 :: h2 :: h3 :: h4 :: s3 =>
                  match decode_uXXXX h1 h2 h3 h4 with
                  | None => None
                  | Some uni =>
                      if (0xD800 <=? uni) && (uni <=? 0xDBFF) then
                        match s3 with
                        | b :: u :: g1 :: g2 :: g3 :: g4 :: s4 =>
                            if (b =? BACKSLASH) && (u =? 117) then
                              match decode_uXXXX g1 g2 g3 g4 with
                              | None => None
                              | Some uni2 =>
                                  if (0xDC00 <=? uni2) && (uni2 <=? 0xDFFF)
                                  then
                                    append_char
                                      (0x10000
                                       + N.lor
                                           (N.shiftl (uni - 0xD800) 10)
                                           (uni2 - 0xDC00))
                                      (scanstring s4)
                                  else append_char uni (scanstring s3)
                              end
                            else append_char uni (scanstring s3)
                        | _ =>
                            match s3 with
                            | b :: u :: _ =>
                                if (b =? BACKSLASH) && (u =? 117) then None
                                else append_char uni (scanstring s3)
                            | _ => append_char uni (scanstring s3)
                            end
                        end
                      else append_char uni (scanstring s3)
                  end
              | _ => None
              end
            else
              match backslash_escape esc with
              | None => None
              | Some ch => append_char ch (scanstring s2)
              end
        end
      else if c <? 0x20 then None
      else append_char c (scanstring s1)
  end.

(** The loop of [JSONObject], from behind the opening quote of a key.
    A value that is not a string ends the decoding with [None]: the
    result would not be a mapping from [str] to [str]. Every round
    consumes input, so the length of the input is fuel enough. *)
Fixpoint parse_members (fuel : nat) (s : str) (pairs : list (str * str))
  : option (list (str * str) * str) :=
  match fuel with
  | O => None
  | S fuel' =>
      match scanstring s with
      | None => None
      | Some (key, s1) =>
          match skip_ws s1 with
          | [] => None
          | colon :: s2 =>
              if negb (colon =? 58) then None
              else
                match skip_ws s2 with
                | [] => None
                | q :: s3 =>
                    if negb (q =? QUOTE) then None
                    else
                      match scanstring s3 with
                      | None => None
                      | Some (value, s4) =>
                          let pairs' := pairs ++ [(key, value)] in
                          match skip_ws s4 with
                          | [] => None
                          | nextchar :: s5 =>
                              if nextchar =? 125 then Some (pairs', s5)
                              else if nextchar =? 44 then
                                match skip_ws s5 with
                                | [] => None
                                | q' :: s6 =>
                                    if q' =? QUOTE
                                    then parse_members fuel' s6 pairs'
                                    else None
                                end
                              else None
                          end
                      end
                end
          end
      end
  end.

(** [JSONObject], from behind the opening brace. *)
Definition JSONObject (s : str) : option (dict * str) :=
  match skip_ws s with
  | [] => None
  | nextchar :: s1 =>
      if nextchar =? 125 then Some ([], s1)
      else if nextchar =? QUOTE then
        match parse_members (length s1) s1 [] with
        | Some (pairs, rest) => Some (dict_of_pairs pairs, rest)
        | None => None
        end
      else None
  end.

(** [json.loads]: one object, with nothing but whitespace around it. *)
Definition json_loads (s : str) : option dict :=
  match skip_ws s with
  | [] => None
  | brace :: s1 =>
      if brace =? 123 then
        match JSONObject s1 with
        | Some (d, rest) =>
            match skip_ws rest with
            | [] => Some d
            | _ :: _ => None
            end
        | None => None
        end
      else None
  end.

(* ================================================================== *)
(** * The files and the standard output *)
(* ================================================================== *)

(** What a path holds: nothing (opening it for reading raises
    [FileNotFoundError] with the text [msg], which names the path;
    opening it for writing creates the file), something that cannot be
    opened (the exception [open] or [read] raises), or a file with its
    bytes. *)
Inductive node : Type :=
| Absent (msg : str)
| NoAccess (e : exn)
| File (data : bytes).

(** A path that holds nothing, with the text the system gives for
    it. *)
Definition no_such_file (path : string) : node :=
  Absent (lit "[Errno 2] No such file or directory: '" ++ lit path
          ++ lit "'").

Definition no_template : node := no_such_file "viewer_template.html".
Definition no_output : node := no_such_file "viewer.html".

(** A directory entry: its name and what it holds. *)
Definition entry : Type := str * node.
Definition name (f : entry) : str := fst f.

(** The surroundings of one run. [messages] lists [script_dir/messages]
    in the order [os.scandir] yields it (empty when the directory does
    not exist); the names of a directory are pairwise distinct.
    [viewer_template_html] and [viewer_html_file] are what the template
    path and the output path hold, [viewer_html_path] is the output path
    as text, and [stdout] holds the lines printed so far. *)
Record World : Type := mkWorld {
  messages : list entry;
  viewer_template_html : node;
  viewer_html_file : node;
  viewer_html_path : str;
  stdout : list str
}.

Definition set_stdout (w : World) (out : list str) : World :=
  mkWorld (messages w) (viewer_template_html w) (viewer_html_file w)
          (viewer_html_path w) out.

Definition set_viewer_html_file (w : World) (f : node) : World :=
  mkWorld (messages w) (viewer_template_html w) f (viewer_html_path w)
          (stdout w).

(** Computations that read and change the surroundings and either
    return or raise; what was done before a raise stays done. *)
Definition IO (A : Type) : Type := World -> result A * World.

Definition ret {A : Type} (a : A) : IO A := fun w => (Ok a, w).

Definition raise {A : Type} (e : exn) : IO A := fun w => (Raised e, w).

Definition bind {A B : Type} (m : IO A) (k : A -> IO B) : IO B :=
  fun w =>
    match m w with
    | (Ok a, w') => k a w'
    | (Raised e, w') => (Raised e, w')
    end.

(** [try: body except Exception as e: handler]. *)
Definition try_except {A : Type} (body : IO A) (handler : exn -> IO A)
  : IO A :=
  fun w =>
    match body w with
    | (Ok a, w') => (Ok a, w')
    | (Raised e, w') => handler e w'
    end.

Notation "x <- m ;; k" := (bind m (fun x => k))
  (at level 61, m at next level, right associativity).
Notation "m ;; k" := (bind m (fun _ => k))
  (at level 61, right associativity).

(** [print(line)] on a standard output that takes every line, as one
    with the error handler [backslashreplace] does. On the default
    standard output a line can fail to be encoded: that is
    [print_strict], further down. *)
Definition print (line : str) : IO unit :=
  fun w => (Ok tt, set_stdout w (stdout w ++ [line])).

(** What [open(path, 'r', encoding='utf-8', errors=h)] followed by
    [f.read()] gives for the node at [path]: the decoded text with its
    line ends translated, or the exception raised. *)
Definition read (f : node) (h : errors) : result str :=
  match f with
  | Absent msg => Raised (FileNotFoundError msg)
  | NoAccess e => Raised e
  | File data =>
      match utf8_decode h data with
      | Ok text => Ok (universal_newlines text)
      | Raised e => Raised e
      end
  end.

(** [with open(path, 'r', encoding='utf-8', errors=h) as f: f.read()]. *)
Definition open_read (f : node) (h : errors) : IO str :=
  fun w => (read f h, w).

(** [messages_dir.glob(pattern)]. *)
Definition glob (pattern : str) : IO (list entry) :=
  fun w => (Ok (filter (fun f => fnmatchcase (name f) pattern) (messages w)),
            w).

Definition viewer_template_path : IO node :=
  fun w => (Ok (viewer_template_html w), w).

(** [script_dir / 'viewer.html'], as [print] shows it. *)
Definition output_path : IO str :=
  fun w => (Ok (viewer_html_path w), w).

(** [with open(output_path, 'w', encoding='utf-8') as f: f.write(text)]:
    opening truncates the file, and the text is encoded as a whole. *)
Definition open_write (text : str) : IO unit :=
  fun w =>
    match viewer_html_file w with
    | NoAccess e => (Raised e, w)
    | _ =>
        match utf8_encode text with
        | Some data => (Ok tt, set_viewer_html_file w (File data))
        | None => (Raised UnicodeEncodeError, set_viewer_html_file w (File []))
        end
    end.

(* ================================================================== *)
(** * [main] *)
(* ================================================================== *)

(** The placeholder of the template and what takes its place. *)
Definition MARKER : str := lit "window.IMESSAGE_DATA = {};".

Definition assignment (data_json : str) : str :=
  lit "window.IMESSAGE_DATA = " ++ data_json ++ lit ";".

(** Line 17: every [*.txt] entry except [orphaned.txt]. *)
Definition txt_files (globbed : list entry) : list entry :=
  filter (fun f => negb (str_eqb (name f) (lit "orphaned.txt"))) globbed.

(** The entries [main] loads from a directory listing ([discover] in
    the specification). *)
Definition discover (listing : list entry) : list entry :=
  txt_files (filter (fun f => fnmatchcase (name f) (lit "*.txt")) listing).

(** The two lines the loop prints for a file: the confirmation, with
    the length of the content, and the diagnostic. *)
Definition loaded_line (txt_file : entry) (content : str) : str :=
  lit "Loaded: " ++ name txt_file ++ lit " ("
  ++ str_of_nat (length content) ++ lit " bytes)".

Definition error_line (txt_file : entry) (e : exn) : str :=
  lit "Error reading " ++ name txt_file ++ lit ": " ++ exn_str e.

(** Lines 23 to 30, the body of the loop ([load] in the
    specification). *)
Definition load (message_data : dict) (txt_file : entry) : IO dict :=
  try_except
    (content <- open_read (snd txt_file) Ignore ;;
     let message_data := dict_set message_data (name txt_file) content in
     print (loaded_line txt_file content) ;;
     ret message_data)
    (fun e =>
       print (error_line txt_file e) ;;
       ret message_data).

(** Lines 21 to 30: [message_data = {}] and the loop over the files. *)
Fixpoint load_files (files : list entry) (message_data : dict) : IO dict :=
  match files with
  | [] => ret message_data
  | txt_file :: files' =>
      message_data' <- load message_data txt_file ;;
      load_files files' message_data'
  end.

(** Lines 42 to 46 ([inject] in the specification). *)
Definition inject (viewer_html data_json : str) : str :=
  replace viewer_html MARKER (assignment data_json) 1.

(** Lines 32 to 54: the template, the injection, the output file and
    the summary. *)
Definition bundle (message_data : dict) : IO unit :=
  template <- viewer_template_path ;;
  viewer_html <- open_read template Strict ;;
  let data_json := json_dumps message_data in
  let viewer_html := inject viewer_html data_json in
  open_write viewer_html ;;
  print ([LF; CHECK_MARK] ++ lit " Generated viewer with "
         ++ str_of_nat (length message_data) ++ lit " conversations") ;;
  output_path <- output_path ;;
  print (CHECK_MARK :: lit " Saved to: " ++ output_path) ;;
  print (LF :: lit "Open viewer.html in your browser to view your messages!").

Definition main : IO unit :=
  globbed <- glob (lit "*.txt") ;;
  let txt_files := txt_files globbed in
  print (lit "Found " ++ str_of_nat (length txt_files)
         ++ lit " conversation files") ;;
  message_data <- load_files txt_files [] ;;
  bundle message_data.

(* ================================================================== *)
(** * Notions the statements use *)
(* ================================================================== *)

(** A pattern no proper suffix of which starts it again: its
    occurrences cannot overlap. *)
Definition borderless (sub : str) : Prop :=
  forall k, (0 < k < length sub)%nat -> startswith sub (skipn k sub) = false.

(** A pattern without [*] and [?]. *)
Definition literal (pat : str) : bool :=
  forallb (fun p => negb (p =? 42) && negb (p =? 63)) pat.

(** The dataset the loop builds and the lines it prints, as functions
    of the files alone. *)
Fixpoint dataset (files : list entry) (message_data : dict) : dict :=
  match files with
  | [] => message_data
  | txt_file :: files' =>
      match read (snd txt_file) Ignore with
      | Ok content =>
          dataset files' (dict_set message_data (name txt_file) content)
      | Raised _ => dataset files' message_data
      end
  end.

Definition load_line (txt_file : entry) : str :=
  match read (snd txt_file) Ignore with
  | Ok content => loaded_line txt_file content
  | Raised e => error_line txt_file e
  end.

(** ** The run and its report *)

(** Whether the read of a conversation file succeeds. *)
Definition readable (f : entry) : bool :=
  match read (snd f) Ignore with Ok _ => true | Raised _ => false end.

(** Line 19 and lines 53 to 55: the count of the files found, and the
    three lines after the output file is written. *)
Definition found_line (n : nat) : str :=
  lit "Found " ++ str_of_nat n ++ lit " conversation files".

Definition summary_lines (n : nat) (path : str) : list str :=
  [[LF; CHECK_MARK] ++ lit " Generated viewer with "
   ++ str_of_nat n ++ lit " conversations";
   CHECK_MARK :: lit " Saved to: " ++ path;
   LF :: lit "Open viewer.html in your browser to view your messages!"].

(** A Unicode scalar value: a code point that is no surrogate. These
    are the characters UTF-8 encodes. *)
Definition scalar (c : char) : bool :=
  (c <? 0xD800) || ((0xE000 <=? c) && (c <? 0x110000)).

Definition encodable (s : str) : bool := forallb scalar s.

(** What the decoder may yield: scalar values, and errors. *)
Definition item_ok (item : option char) : Prop :=
  match item with Some c => scalar c = true | None => True end.

(* ================================================================== *)
(** * [main] on a strict standard output *)
(* ================================================================== *)

(** [print(line)] when the standard output encodes as UTF-8 with the
    error handler [strict], which is what Python sets up on a UTF-8
    locale. A line with a character that cannot be encoded, such as the
    lone surrogate in the name of a file whose bytes are not UTF-8,
    raises [UnicodeEncodeError] and nothing of the line is written.
    [print] above is the standard output that takes every line (the
    handler [backslashreplace], say). *)
Definition print_strict (line : str) : IO unit :=
  fun w =>
    if encodable line then print line w else (Raised UnicodeEncodeError, w).

(** Lines 23 to 30 once more. The [try] block can now raise at two
    places: at [open] and [read], with the [dict] as it was, and at
    [print], with the content already stored. What the handler raises
    is caught by nothing. *)
Definition load_strict (message_data : dict) (txt_file : entry) : IO dict :=
  fun w =>
    match read (snd txt_file) Ignore with
    | Raised e =>
        (print_strict (error_line txt_file e) ;; ret message_data) w
    | Ok content =>
        let message_data := dict_set message_data (name txt_file) content in
        try_except
          (print_strict (loaded_line txt_file content) ;; ret message_data)
          (fun e =>
             print_strict (error_line txt_file e) ;; ret message_data) w
    end.

Fixpoint load_files_strict (files : list entry) (message_data : dict)
  : IO dict :=
  match files with
  | [] => ret message_data
  | txt_file :: files' =>
      message_data' <- load_strict message_data txt_file ;;
      load_files_strict files' message_data'
  end.

Definition bundle_strict (message_data : dict) : IO unit :=
  template <- viewer_template_path ;;
  viewer_html <- open_read template Strict ;;
  let data_json := json_dumps message_data in
  let viewer_html := inject viewer_html data_json in
  open_write viewer_html ;;
  print_strict ([LF; CHECK_MARK] ++ lit " Generated viewer with "
                ++ str_of_nat (length message_data)
                ++ lit " conversations") ;;
  output_path <- output_path ;;
  print_strict (CHECK_MARK :: lit " Saved to: " ++ output_path) ;;
  print_strict
    (LF :: lit "Open viewer.html in your browser to view your messages!").

Definition main_strict : IO unit :=
  globbed <- glob (lit "*.txt") ;;
  let txt_files := txt_files globbed in
  print_strict (lit "Found " ++ str_of_nat (length txt_files)
                ++ lit " conversation files") ;;
  message_data <- load_files_strict txt_files [] ;;
  bundle_strict message_data.

(** A conversation file whose line of the report can be printed on the
    strict standard output: its name and, when it cannot be read, the
    text of the error hold no character that UTF-8 cannot encode. *)
Definition printable (f : entry) : bool :=
  encodable (name f)
  && match read (snd f) Ignore with
     | Ok _ => true
     | Raised e => encodable (exn_str e)
     end.

(** ** Serialized text *)

(** A character above the ASCII range. *)
Definition non_ascii (c : char) : bool := 128 <=? c.

(** The characters [json.dumps] escapes: the control characters, the
    quote and the backslash. *)
Definition escaped : list char := map N.of_nat (seq 0 32) ++ [QUOTE; BACKSLASH].

(** An item behind its opening quote, and the items that follow the
    first one, each with the separator before it. *)
Definition item_tail (kv : str * str) : str :=
  flat_map escape_char (fst kv) ++ QUOTE :: key_separator
  ++ QUOTE :: flat_map escape_char (snd kv) ++ [QUOTE].

Definition further_items (d : dict) : str :=
  flat_map (fun kv => item_separator ++ encode_item kv) d.

(** The escaped keys and contents of a dataset are free of a
    pattern. *)
Definition strings_clean (sub : str) (d : dict) : Prop :=
  forall kv, In kv d ->
    occurrences sub (flat_map escape_char (fst kv)) = O
    /\ occurrences sub (flat_map escape_char (snd kv)) = O.

(** ** The scenario of the specification *)

Definition alice : entry :=
  (lit "alice.txt", File (list_byte_of_string "Hello")).

Definition orphaned : entry :=
  (lit "orphaned.txt", File (list_byte_of_string "ignored")).

Definition scenario_template : bytes :=
  list_byte_of_string "<script>window.IMESSAGE_DATA = {};</script>".

(** A run of the scenario: the directory listing in some order, and
    what the output path held, its text and the standard output
    before. *)
Definition scenario (listing : list entry) (previous : option bytes)
           (path : str) (out : list str) : World :=
  mkWorld listing (File scenario_template)
          (match previous with Some data => File data | None => no_output end)
          path out.

(** The data as the specification writes it,
    [{"alice.txt": "Hello"}], and as [json.dumps] lays it out with
    [indent=2]. *)
Definition scenario_json_compact : str :=
  lit "{" ++ QUOTE :: lit "alice.txt" ++ QUOTE :: lit ": "
  ++ QUOTE :: lit "Hello" ++ QUOTE :: lit "}".

Definition scenario_json : str :=
  lit "{" ++ LF :: lit "  " ++ QUOTE :: lit "alice.txt" ++ QUOTE :: lit ": "
  ++ QUOTE :: lit "Hello" ++ QUOTE :: LF :: lit "}".

(** The bytes of the document of the scenario, which is ASCII: the
    opening tag and the start of the assignment, the brace, a line feed
    and two spaces, the quoted name, a colon and a space, the quoted
    content, a line feed, the closing brace, the semicolon and the
    closing tag. *)
Definition scenario_output : bytes :=
  [x3c; x73; x63; x72; x69; x70; x74; x3e; x77; x69;
   x6e; x64; x6f; x77; x2e; x49; x4d; x45; x53; x53;
   x41; x47; x45; x5f; x44; x41; x54; x41; x20; x3d;
   x20; x7b; x0a; x20; x20; x22; x61; x6c; x69; x63;
   x65; x2e; x74; x78; x74; x22; x3a; x20; x22; x48;
   x65; x6c; x6c; x6f; x22; x0a; x7d; x3b; x3c; x2f;
   x73; x63; x72; x69; x70; x74; x3e].

(** A text without the whitespace JSON allows between tokens. *)
Definition without_ws (s : str) : str := filter (fun c => negb (is_ws c)) s.

(* ================================================================== *)
(** * Facts about text *)
(* ================================================================== *)

Lemma str_eqb_eq (a b : str) : str_eqb a b = true <-> a = b.
Proof.
  revert b; induction a as [|x a IH]; intros [|y b]; simpl;
    try (split; (discriminate || reflexivity)).
  rewrite andb_true_iff, N.eqb_eq, IH.
  split; [intros [-> ->]; reflexivity | intros H; inversion H; auto].
Qed.

Lemma str_eqb_refl (a : str) : str_eqb a a = true.
Proof. now apply str_eqb_eq. Qed.

Lemma str_eqb_neq (a b : str) : str_eqb a b = false <-> a <> b.
Proof.
  split.
  - intros H E. apply str_eqb_eq in E. congruence.
  - intros H. destruct (str_eqb a b) eqn:E; [|reflexivity].
    apply str_eqb_eq in E. contradiction.
Qed.

Lemma startswith_app (p v : str) : startswith (p ++ v) p = true.
Proof.
  induction p as [|c p IH]; simpl; [reflexivity|].
  now rewrite N.eqb_refl.
Qed.

Lemma startswith_inv (s p : str) :
  startswith s p = true -> exists v, s = p ++ v.
Proof.
  revert s; induction p as [|c p IH]; intros s H; simpl in *.
  - now exists s.
  - destruct s as [|x s]; [discriminate|].
    apply andb_true_iff in H as [E H]. apply N.eqb_eq in E. subst x.
    destruct (IH _ H) as [v ->]. now exists v.
Qed.

Lemma startswith_length (s p : str) :
  startswith s p = true -> (length p <= length s)%nat.
Proof.
  intros H. destruct (startswith_inv _ _ H) as [v ->].
  rewrite length_app. lia.
Qed.

Lemma startswith_nil (p : str) : p <> [] -> startswith [] p = false.
Proof. destruct p; [congruence | reflexivity]. Qed.

(** A prefix test on a concatenation splits at the seam. *)
Lemma startswith_app_split (x y p : str) :
  startswith (x ++ y) p =
  startswith x (firstn (length x) p) && startswith y (skipn (length x) p).
Proof.
  revert p; induction x as [|c x IH]; intros p; simpl.
  - reflexivity.
  - destruct p as [|q p]; simpl.
    + now destruct y.
    + rewrite IH, andb_assoc. reflexivity.
Qed.

Lemma startswith_app_short (x y p : str) :
  (length p <= length x)%nat -> startswith (x ++ y) p = startswith x p.
Proof.
  intros H. rewrite startswith_app_split.
  rewrite firstn_all2 by exact H. rewrite skipn_all2 by exact H.
  destruct y; simpl; apply andb_true_r.
Qed.

Lemma startswith_firstn (s p : str) :
  startswith s p = true -> firstn (length p) s = p.
Proof.
  intros H. destruct (startswith_inv _ _ H) as [v ->].
  rewrite firstn_app, Nat.sub_diag, firstn_all. simpl. apply app_nil_r.
Qed.

(** ** Occurrences *)

Lemma occurs_at_app (sub u v : str) :
  occurs_at sub (u ++ sub ++ v) (length u) = true.
Proof.
  unfold occurs_at. rewrite skipn_app, skipn_all, Nat.sub_diag. simpl.
  apply startswith_app.
Qed.

Lemma occurs_at_inv (sub s : str) (i : nat) :
  occurs_at sub s i = true -> (i <= length s)%nat ->
  exists v, s = firstn i s ++ sub ++ v.
Proof.
  unfold occurs_at. intros H Hi. destruct (startswith_inv _ _ H) as [v E].
  exists v. rewrite <- E. symmetry. apply firstn_skipn.
Qed.

Lemma occurs_at_bound (sub s : str) (i : nat) :
  sub <> [] -> occurs_at sub s i = true -> (i + length sub <= length s)%nat.
Proof.
  unfold occurs_at. intros Hs H.
  apply startswith_length in H. rewrite length_skipn in H.
  destruct sub; [congruence|]. simpl in *. lia.
Qed.

Lemma occurs_at_left (sub a b : str) (i : nat) :
  (i + length sub <= length a)%nat ->
  occurs_at sub (a ++ b) i = occurs_at sub a i.
Proof.
  unfold occurs_at. intros H. rewrite skipn_app.
  apply startswith_app_short. rewrite length_skipn. lia.
Qed.

Lemma occurs_at_right (sub a b : str) (i : nat) :
  (length a <= i)%nat ->
  occurs_at sub (a ++ b) i = occurs_at sub b (i - length a).
Proof.
  unfold occurs_at. intros H. rewrite skipn_app.
  now rewrite skipn_all2 by exact H.
Qed.

(** An occurrence across a seam: the tail of [sub] starts the right
    part. *)
Lemma occurs_at_straddle (sub a b : str) (i : nat) :
  occurs_at sub (a ++ b) i = true ->
  (i <= length a)%nat -> (length a <= i + length sub)%nat ->
  startswith b (skipn (length a - i) sub) = true
  /\ skipn i a = firstn (length a - i) sub.
Proof.
  unfold occurs_at. intros H Hi Hs. rewrite skipn_app in H.
  replace (i - length a)%nat with O in H by lia. simpl in H.
  rewrite startswith_app_split, length_skipn in H.
  apply andb_true_iff in H as [H1 H2]. split; [exact H2|].
  apply startswith_firstn in H1.
  rewrite length_firstn, Nat.min_l in H1 by lia.
  rewrite <- H1. symmetry. apply firstn_all2. rewrite length_skipn. lia.
Qed.

Lemma in_positions (sub s : str) (i : nat) :
  In i (positions sub s) <-> (i <= length s)%nat /\ occurs_at sub s i = true.
Proof.
  unfold positions. rewrite filter_In, in_seq. simpl. intuition lia.
Qed.

Lemma positions_NoDup (sub s : str) : NoDup (positions sub s).
Proof. unfold positions. apply NoDup_filter, seq_NoDup. Qed.

Lemma occurrences_zero (sub s : str) :
  occurrences sub s = O <->
  forall i, (i <= length s)%nat -> occurs_at sub s i = false.
Proof.
  unfold occurrences. split.
  - intros H i Hi. destruct (occurs_at sub s i) eqn:E; [|reflexivity].
    assert (In i (positions sub s)) by (apply in_positions; auto).
    destruct (positions sub s); [contradiction | discriminate].
  - intros H. destruct (positions sub s) as [|i l] eqn:E; [reflexivity|].
    assert (Hin : In i (positions sub s)) by (rewrite E; now left).
    apply in_positions in Hin as [Hi Ho]. rewrite H in Ho by exact Hi.
    discriminate.
Qed.

Lemma occurrences_pos (sub s : str) (i : nat) :
  (i <= length s)%nat -> occurs_at sub s i = true ->
  (1 <= occurrences sub s)%nat.
Proof.
  intros Hi Ho. unfold occurrences.
  assert (In i (positions sub s)) by (apply in_positions; auto).
  destruct (positions sub s); [contradiction | simpl; lia].
Qed.

Lemma occurrences_two (sub s : str) (i j : nat) :
  i <> j ->
  (i <= length s)%nat -> occurs_at sub s i = true ->
  (j <= length s)%nat -> occurs_at sub s j = true ->
  (2 <= occurrences sub s)%nat.
Proof.
  intros Hne Hi Ho Hj Hp. unfold occurrences.
  change 2%nat with (length [i; j]).
  apply NoDup_incl_length.
  - constructor; [simpl; intuition congruence|]. constructor; [|constructor].
    simpl. tauto.
  - intros x [<-|[<-|[]]]; apply in_positions; auto.
Qed.

Lemma occurrences_one_unique (sub s : str) (i j : nat) :
  occurrences sub s = 1%nat ->
  (i <= length s)%nat -> occurs_at sub s i = true ->
  (j <= length s)%nat -> occurs_at sub s j = true ->
  i = j.
Proof.
  intros H1 Hi Ho Hj Hp. destruct (Nat.eq_dec i j) as [E|E]; [exact E|].
  pose proof (occurrences_two sub s i j E Hi Ho Hj Hp). lia.
Qed.

(** If the only positions are [i], the count is one. *)
Lemma occurrences_one_intro (sub s : str) (i : nat) :
  (i <= length s)%nat -> occurs_at sub s i = true ->
  (forall j, (j <= length s)%nat -> occurs_at sub s j = true -> j = i) ->
  occurrences sub s = 1%nat.
Proof.
  intros Hi Ho Hu. unfold occurrences.
  pose proof (positions_NoDup sub s) as ND.
  assert (Hin : In i (positions sub s)) by (apply in_positions; auto).
  assert (Hall : forall j, In j (positions sub s) -> j = i).
  { intros j Hj. apply in_positions in Hj as [? ?]. auto. }
  destruct (positions sub s) as [|a [|b l]]; simpl in *.
  - contradiction.
  - reflexivity.
  - exfalso. inversion ND as [|? ? Hn _]; subst.
    apply Hn. left. rewrite (Hall a), (Hall b); auto.
Qed.

Lemma startswith_firstn_self (s : str) (n : nat) :
  startswith s (firstn n s) = true.
Proof.
  rewrite <- (firstn_skipn n s) at 1. apply startswith_app.
Qed.

(** ** [find] *)

Lemma find_none (s sub : str) :
  find s sub = None -> forall i, occurs_at sub s i = false.
Proof.
  induction s as [|c s IH]; simpl; intros H i.
  - destruct (startswith [] sub) eqn:E; [discriminate|].
    unfold occurs_at. now rewrite skipn_nil.
  - destruct (startswith (c :: s) sub) eqn:E; [discriminate|].
    destruct (find s sub) eqn:F; [discriminate|].
    destruct i as [|i]; [exact E|]. now apply IH.
Qed.

Lemma find_some (s sub : str) (i : nat) :
  find s sub = Some i ->
  occurs_at sub s i = true /\ (i <= length s)%nat
  /\ forall j, (j < i)%nat -> occurs_at sub s j = false.
Proof.
  revert i; induction s as [|c s IH]; simpl; intros i H.
  - destruct (startswith [] sub) eqn:E; [|discriminate].
    injection H as <-. repeat split; auto; intros; lia.
  - destruct (startswith (c :: s) sub) eqn:E.
    + injection H as <-. repeat split; auto; intros; lia.
    + destruct (find s sub) as [i'|] eqn:F; [|discriminate].
      simpl in H. injection H as <-.
      destruct (IH _ eq_refl) as (A & B & C).
      split; [exact A|]. split; [lia|].
      intros [|j] Hj; [exact E|]. apply C. lia.
Qed.

Lemma find_first (s sub : str) (i : nat) :
  occurs_at sub s i = true ->
  (forall j, (j < i)%nat -> occurs_at sub s j = false) ->
  find s sub = Some i.
Proof.
  intros Ho Hf. destruct (find s sub) as [i'|] eqn:F.
  - destruct (find_some _ _ _ F) as (A & _ & C).
    destruct (Nat.lt_trichotomy i i') as [L|[->|L]].
    + rewrite C in Ho by exact L. discriminate.
    + reflexivity.
    + rewrite Hf in A by exact L. discriminate.
  - rewrite (find_none _ _ F) in Ho. discriminate.
Qed.

Lemma find_absent (s sub : str) :
  occurrences sub s = O -> find s sub = None.
Proof.
  intros H. destruct (find s sub) as [i|] eqn:F; [|reflexivity].
  destruct (find_some _ _ _ F) as (A & B & _).
  rewrite (proj1 (occurrences_zero sub s) H i B) in A. discriminate.
Qed.

(** ** [replace] *)

Lemma replace_absent (s old new : str) (count : nat) :
  old <> [] -> find s old = None -> replace s old new count = s.
Proof.
  intros Ho F. destruct old; [congruence|]. unfold replace.
  destruct count; simpl; [reflexivity|]. now rewrite F.
Qed.

Lemma replace_once (s old new : str) (i : nat) :
  old <> [] -> find s old = Some i ->
  replace s old new 1 = firstn i s ++ new ++ skipn (i + length old) s.
Proof.
  intros Ho F. destruct old as [|c old]; [congruence|]. unfold replace.
  cbn [replace_found]. now rewrite F.
Qed.

(** ** Patterns that cannot overlap themselves *)

Section Borderless.

Variable sub : str.
Hypothesis sub_borderless : borderless sub.
Hypothesis sub_nonempty : sub <> [].

Lemma no_overlap (s : str) (i j : nat) :
  occurs_at sub s i = true -> occurs_at sub s j = true ->
  (i < j)%nat -> (i + length sub <= j)%nat.
Proof.
  intros Hi Hj L.
  destruct (Nat.le_gt_cases (i + length sub) j) as [G|G]; [exact G|exfalso].
  pose proof (occurs_at_bound _ _ _ sub_nonempty Hi) as Bi.
  destruct (occurs_at_inv _ _ _ Hi) as [v E]; [lia|].
  rewrite E in Hj. rewrite occurs_at_right in Hj
    by (rewrite length_firstn; lia).
  rewrite length_firstn, Nat.min_l in Hj by lia.
  destruct (occurs_at_straddle _ _ _ _ Hj) as [_ S]; try lia.
  assert (B : startswith sub (skipn (j - i) sub) = true)
    by (rewrite S; apply startswith_firstn_self).
  rewrite sub_borderless in B by lia. discriminate.
Qed.

(** The first occurrence in [pre ++ sub ++ suf] when [pre] has none. *)
Lemma find_after_clean_prefix (pre suf : str) :
  occurrences sub pre = O ->
  find (pre ++ sub ++ suf) sub = Some (length pre).
Proof.
  intros H0. apply find_first; [apply occurs_at_app|].
  intros j Hj. destruct (occurs_at sub (pre ++ sub ++ suf) j) eqn:E;
    [exfalso|reflexivity].
  pose proof (no_overlap _ _ _ E (occurs_at_app sub pre suf) Hj) as L.
  rewrite occurs_at_left in E by exact L.
  rewrite (proj1 (occurrences_zero sub pre) H0) in E by lia. discriminate.
Qed.

Lemma replace_after_clean_prefix (pre suf new : str) :
  occurrences sub pre = O ->
  replace (pre ++ sub ++ suf) sub new 1 = pre ++ new ++ suf.
Proof.
  intros H0.
  rewrite (replace_once _ _ _ _ sub_nonempty (find_after_clean_prefix _ suf H0)).
  rewrite firstn_app, Nat.sub_diag, firstn_all. simpl. rewrite app_nil_r.
  rewrite skipn_app, skipn_all2 by lia.
  replace (length pre + length sub - length pre)%nat with (length sub) by lia.
  rewrite skipn_app, skipn_all, Nat.sub_diag. reflexivity.
Qed.

End Borderless.

(** ** The marker *)

Lemma MARKER_length : length MARKER = 26%nat.
Proof. reflexivity. Qed.

Lemma MARKER_nonempty : MARKER <> [].
Proof. discriminate. Qed.

Lemma MARKER_borderless : borderless MARKER.
Proof.
  intros k Hk. rewrite MARKER_length in Hk.
  assert (A : forallb (fun k => negb (startswith MARKER (skipn k MARKER)))
                      (seq 1 25) = true) by (vm_compute; reflexivity).
  rewrite forallb_forall in A. specialize (A k).
  rewrite in_seq in A. apply negb_true_iff, A. lia.
Qed.

Lemma occurs_at_middle (sub a b c : str) (x : nat) :
  (x + length sub <= length b)%nat ->
  occurs_at sub (a ++ b ++ c) (length a + x) = occurs_at sub b x.
Proof.
  intros H. rewrite occurs_at_right by lia.
  replace (length a + x - length a)%nat with x by lia.
  now apply occurs_at_left.
Qed.

Lemma occurrences_zero_middle (sub a b c : str) :
  sub <> [] ->
  (forall x, occurs_at sub (a ++ b ++ c) (length a + x) = true ->
             (x + length sub <= length b)%nat -> False) ->
  occurrences sub b = O.
Proof.
  intros Hs H. apply occurrences_zero. intros x Hx.
  destruct (occurs_at sub b x) eqn:E; [exfalso|reflexivity].
  pose proof (occurs_at_bound _ _ _ Hs E) as B.
  apply (H x); [|exact B]. now rewrite occurs_at_middle.
Qed.

(** Two occurrences, in order. *)
Lemma occurrences_two_inv (sub s : str) :
  occurrences sub s = 2%nat ->
  exists i j, (i < j)%nat
    /\ occurs_at sub s i = true /\ occurs_at sub s j = true
    /\ (j <= length s)%nat
    /\ forall x, (x <= length s)%nat -> occurs_at sub s x = true ->
                 x = i \/ x = j.
Proof.
  unfold occurrences. intros H.
  pose proof (positions_NoDup sub s) as ND.
  pose proof (in_positions sub s) as IP.
  destruct (positions sub s) as [|a [|b [|c l]]]; try discriminate.
  assert (Ha : In a [a; b]) by (simpl; auto).
  assert (Hb : In b [a; b]) by (simpl; auto).
  apply IP in Ha as [La Oa]. apply IP in Hb as [Lb Ob].
  assert (Hne : a <> b).
  { inversion ND as [|? ? Hn _]; subst. simpl in Hn. intuition congruence. }
  assert (Hall : forall x, (x <= length s)%nat -> occurs_at sub s x = true ->
                           x = a \/ x = b).
  { intros x Lx Ox. assert (Hx : In x [a; b]) by (apply IP; auto).
    simpl in Hx. intuition congruence. }
  destruct (Nat.lt_trichotomy a b) as [L|[E|L]]; [|contradiction|].
  - exists a, b. repeat split; auto.
  - exists b, a. repeat split; auto.
    intros x Lx Ox. destruct (Hall x Lx Ox); auto.
Qed.

(* ================================================================== *)
(** * Injection of the data into the template *)
(* ================================================================== *)

Lemma assignment_app (data_json suffix : str) :
  assignment data_json ++ suffix =
  lit "window.IMESSAGE_DATA = " ++ data_json ++ lit ";" ++ suffix.
Proof. unfold assignment. now rewrite <- !app_assoc. Qed.

Lemma inject_first (prefix suffix data_json : str) :
  occurrences MARKER prefix = O ->
  inject (prefix ++ MARKER ++ suffix) data_json =
  prefix ++ assignment data_json ++ suffix.
Proof.
  intros H. unfold inject.
  apply (replace_after_clean_prefix MARKER MARKER_borderless MARKER_nonempty).
  exact H.
Qed.

(** C5: a template without the marker comes back unchanged, whatever
    the data; [inject] is a total function, so nothing is raised. *)
Theorem inject_without_marker (template data_json : str) :
  occurrences MARKER template = O -> inject template data_json = template.
Proof.
  intros H. unfold inject.
  apply replace_absent; [exact MARKER_nonempty | now apply find_absent].
Qed.

Lemma inject_without_marker_witness :
  occurrences MARKER (lit "<html><body></body></html>") = O
  /\ inject (lit "<html><body></body></html>")
            (json_dumps [(lit "alice.txt", lit "Hello")])
     = lit "<html><body></body></html>".
Proof.
  split; [vm_compute; reflexivity|].
  apply inject_without_marker. vm_compute; reflexivity.
Defined.

(** C10: when the marker does not occur in [prefix], the template
    [prefix ++ MARKER ++ suffix] becomes [prefix], the assignment of the
    serialized data, and [suffix]; nothing outside the first marker
    changes. *)
Theorem inject_frame (prefix suffix data_json : str) :
  occurrences MARKER prefix = O ->
  inject (prefix ++ MARKER ++ suffix) data_json =
  prefix ++ lit "window.IMESSAGE_DATA = " ++ data_json ++ lit ";" ++ suffix.
Proof.
  intros H. rewrite (inject_first _ _ _ H). now rewrite assignment_app.
Qed.

Lemma inject_frame_witness :
  occurrences MARKER (lit "<script>") = O
  /\ inject (lit "<script>" ++ MARKER ++ lit "</script>") (lit "{}")
     = lit "<script>" ++ lit "window.IMESSAGE_DATA = " ++ lit "{}"
       ++ lit ";" ++ lit "</script>".
Proof.
  split; [vm_compute; reflexivity|].
  apply inject_frame. vm_compute; reflexivity.
Defined.

(** C4: a template with exactly two markers is [pre], the marker,
    [mid], the marker and [suf], with no marker inside [pre], [mid] or
    [suf]. In the result the first marker has given way to
    [window.IMESSAGE_DATA = <data>;] and the second one is still there,
    the literal [window.IMESSAGE_DATA = {};], behind [mid]; [pre], [mid]
    and [suf] are as they were. *)
Theorem inject_two_markers (template data_json : str) :
  occurrences MARKER template = 2%nat ->
  exists pre mid suf,
    template = pre ++ lit "window.IMESSAGE_DATA = {};" ++ mid
               ++ lit "window.IMESSAGE_DATA = {};" ++ suf
    /\ occurrences MARKER pre = O
    /\ occurrences MARKER mid = O
    /\ occurrences MARKER suf = O
    /\ inject template data_json =
       pre ++ lit "window.IMESSAGE_DATA = " ++ data_json ++ lit ";"
       ++ mid ++ lit "window.IMESSAGE_DATA = {};" ++ suf.
Proof.
  intros H2. change (lit "window.IMESSAGE_DATA = {};") with MARKER.
  destruct (occurrences_two_inv _ _ H2) as (i & j & Lij & Oi & Oj & Lj & Hall).
  pose proof (no_overlap MARKER MARKER_borderless MARKER_nonempty
                _ _ _ Oi Oj Lij) as Gap.
  pose proof (occurs_at_bound _ _ _ MARKER_nonempty Oj) as Bj.
  rewrite MARKER_length in *.
  destruct (occurs_at_inv _ _ _ Oi) as [v1 E1]; [lia|].
  set (pre := firstn i template) in *.
  assert (Lpre : length pre = i) by (unfold pre; rewrite length_firstn; lia).
  assert (Lt : length template = (i + 26 + length v1)%nat).
  { rewrite E1 at 1. rewrite !length_app, MARKER_length. lia. }
  assert (Oj' : occurs_at MARKER v1 (j - i - 26) = true).
  { rewrite E1, app_assoc in Oj. rewrite occurs_at_right in Oj
      by (rewrite length_app, MARKER_length; lia).
    rewrite length_app, MARKER_length, Lpre in Oj.
    now replace (j - (i + 26))%nat with (j - i - 26)%nat in Oj by lia. }
  destruct (occurs_at_inv _ _ _ Oj') as [suf E2]; [lia|].
  set (mid := firstn (j - i - 26) v1) in *.
  assert (Lmid : length mid = (j - i - 26)%nat)
    by (unfold mid; rewrite length_firstn; lia).
  assert (E : template = pre ++ MARKER ++ mid ++ MARKER ++ suf)
    by (rewrite E1 at 1; now rewrite E2 at 1).
  assert (Z : occurrences MARKER pre = O).
  { apply (occurrences_zero_middle MARKER [] pre (MARKER ++ v1));
      [exact MARKER_nonempty|].
    change ([] ++ pre ++ MARKER ++ v1) with (pre ++ MARKER ++ v1).
    rewrite <- E1, MARKER_length.
    intros x Ox Bx. change (length (@nil char) + x)%nat with x in Ox.
    destruct (Hall x) as [->| ->]; auto; lia. }
  exists pre, mid, suf. split; [exact E|]. split; [exact Z|].
  split; [|split].
  - apply (occurrences_zero_middle MARKER (pre ++ MARKER) mid (MARKER ++ suf));
      [exact MARKER_nonempty|].
    rewrite <- app_assoc, <- E, length_app, MARKER_length, Lpre.
    intros x Ox Bx. destruct (Hall (i + 26 + x)%nat) as [F|F]; auto; lia.
  - apply (occurrences_zero_middle MARKER (pre ++ MARKER ++ mid ++ MARKER)
             suf []); [exact MARKER_nonempty|].
    rewrite app_nil_r.
    replace ((pre ++ MARKER ++ mid ++ MARKER) ++ suf) with template
      by (rewrite E at 1; now rewrite <- !app_assoc).
    rewrite !length_app, MARKER_length, Lpre, Lmid.
    intros x Ox Bx.
    assert (Lsuf : (length template = j + 26 + length suf)%nat).
    { rewrite E at 1. rewrite !length_app, MARKER_length. lia. }
    destruct (Hall (i + (26 + (j - i - 26 + 26)) + x)%nat) as [F|F];
      auto; lia.
  - rewrite E at 1. rewrite (inject_first _ _ _ Z).
    now rewrite assignment_app.
Qed.

Lemma inject_two_markers_witness :
  let template :=
    lit "<p>" ++ MARKER ++ lit "<br>" ++ MARKER ++ lit "</p>" in
  let data_json := json_dumps [(lit "alice.txt", lit "Hello")] in
  occurrences MARKER template = 2%nat
  /\ exists pre mid suf,
    template = pre ++ lit "window.IMESSAGE_DATA = {};" ++ mid
               ++ lit "window.IMESSAGE_DATA = {};" ++ suf
    /\ occurrences MARKER pre = O
    /\ occurrences MARKER mid = O
    /\ occurrences MARKER suf = O
    /\ inject template data_json =
       pre ++ lit "window.IMESSAGE_DATA = " ++ data_json ++ lit ";"
       ++ mid ++ lit "window.IMESSAGE_DATA = {};" ++ suf.
Proof.
  cbv zeta. split; [vm_compute; reflexivity|].
  apply inject_two_markers. vm_compute; reflexivity.
Defined.

(* ================================================================== *)
(** * Discovery of the conversation files *)
(* ================================================================== *)

Lemma wildcard_star (pat name : str) :
  wildcard (42 :: pat) name =
  wildcard pat name
  || match name with [] => false | _ :: name' => wildcard (42 :: pat) name' end.
Proof. destruct name; reflexivity. Qed.

Lemma wildcard_star_iff (pat name : str) :
  wildcard (42 :: pat) name = true <->
  exists stem rest, name = stem ++ rest /\ wildcard pat rest = true.
Proof.
  induction name as [|c name IH]; rewrite wildcard_star, orb_true_iff.
  - split.
    + intros [H|H]; [|discriminate]. now exists [], [].
    + intros (stem & rest & E & H).
      symmetry in E. apply app_eq_nil in E as [-> ->]. now left.
  - rewrite IH. split.
    + intros [H|(stem & rest & -> & H)].
      * now exists [], (c :: name).
      * now exists (c :: stem), rest.
    + intros (stem & rest & E & H). destruct stem as [|x stem]; simpl in E.
      * subst rest. now left.
      * injection E as -> ->. right. now exists stem, rest.
Qed.

Lemma wildcard_literal (pat : str) :
  literal pat = true -> forall name, wildcard pat name = str_eqb name pat.
Proof.
  induction pat as [|p pat IH]; simpl; intros H name.
  - now destruct name.
  - apply andb_true_iff in H as [Hp H].
    apply andb_true_iff in Hp as [H1 H2].
    apply negb_true_iff in H1, H2. rewrite H1, H2.
    destruct name as [|c name]; [reflexivity|]. now rewrite IH.
Qed.

(** [*.txt] matches exactly the names that end in [.txt]. *)
Lemma fnmatchcase_txt (name : str) :
  fnmatchcase name (lit "*.txt") = true <->
  exists stem, name = stem ++ lit ".txt".
Proof.
  unfold fnmatchcase. change (lit "*.txt") with (42 :: lit ".txt").
  rewrite wildcard_star_iff. split.
  - intros (stem & rest & -> & H). exists stem.
    rewrite wildcard_literal in H by reflexivity.
    apply str_eqb_eq in H. now subst.
  - intros [stem ->]. exists stem, (lit ".txt"). split; [reflexivity|].
    rewrite wildcard_literal by reflexivity. apply str_eqb_refl.
Qed.

Lemma in_discover (listing : list entry) (f : entry) :
  In f (discover listing) <->
  In f listing
  /\ (exists stem, name f = stem ++ lit ".txt")
  /\ name f <> lit "orphaned.txt".
Proof.
  unfold discover, txt_files. rewrite !filter_In, negb_true_iff.
  rewrite fnmatchcase_txt, str_eqb_neq. tauto.
Qed.

(** C3: [discover] keeps an entry of the directory exactly when its
    name ends in [.txt] and is not, character for character,
    [orphaned.txt]; the result is the empty list, not an error, exactly
    when no entry qualifies. *)
Theorem discover_spec (listing : list entry) :
  (forall f, In f (discover listing) <->
             In f listing
             /\ (exists stem, name f = stem ++ lit ".txt")
             /\ name f <> lit "orphaned.txt")
  /\ (discover listing = [] <->
      forall f, In f listing ->
                (exists stem, name f = stem ++ lit ".txt") ->
                name f = lit "orphaned.txt").
Proof.
  split; [intros f; apply in_discover|]. split.
  - intros E f Hf Hm.
    destruct (str_eqb (name f) (lit "orphaned.txt")) eqn:Q;
      [now apply str_eqb_eq|].
    apply str_eqb_neq in Q.
    assert (Hin : In f (discover listing)) by (apply in_discover; auto).
    rewrite E in Hin. contradiction.
  - intros H. destruct (discover listing) as [|f l] eqn:E; [reflexivity|].
    assert (Hin : In f (discover listing)) by (rewrite E; now left).
    apply in_discover in Hin as (Hf & Hm & Hn). now specialize (H f Hf Hm).
Qed.

(* ================================================================== *)
(** * The dataset *)
(* ================================================================== *)

Lemma dict_get_set (d : dict) (k v k' : str) :
  dict_get (dict_set d k v) k' =
  if str_eqb k k' then Some v else dict_get d k'.
Proof.
  induction d as [|[k0 v0] d IH]; simpl; [reflexivity|].
  destruct (str_eqb k0 k) eqn:E0; simpl.
  - apply str_eqb_eq in E0. subst k0. now destruct (str_eqb k k').
  - rewrite IH. destruct (str_eqb k0 k') eqn:E1; [|reflexivity].
    destruct (str_eqb k k') eqn:E2; [|reflexivity].
    apply str_eqb_eq in E1, E2. subst. rewrite str_eqb_refl in E0.
    discriminate.
Qed.

Lemma distinct_names_filter (keep : entry -> bool) (files : list entry) :
  NoDup (map name files) -> NoDup (map name (filter keep files)).
Proof.
  induction files as [|h files IH]; simpl; intros ND; [constructor|].
  inversion ND as [|? ? Hn Hd]; subst. destruct (keep h); simpl; auto.
  constructor; auto. intros Hin. apply Hn.
  apply in_map_iff in Hin as (g & E & Hg). apply filter_In in Hg as [Hg _].
  apply in_map_iff. now exists g.
Qed.

Lemma NoDup_discover (listing : list entry) :
  NoDup (map name listing) -> NoDup (map name (discover listing)).
Proof.
  intros H. unfold discover, txt_files. now do 2 apply distinct_names_filter.
Qed.

Lemma dataset_get_other (files : list entry) (d : dict) (k : str) :
  ~ In k (map name files) -> dict_get (dataset files d) k = dict_get d k.
Proof.
  revert d; induction files as [|h files IH]; simpl; intros d H;
    [reflexivity|].
  destruct (read (snd h) Ignore) as [content|e]; rewrite IH by tauto;
    [|reflexivity].
  rewrite dict_get_set. destruct (str_eqb (name h) k) eqn:E; [|reflexivity].
  apply str_eqb_eq in E. tauto.
Qed.

(** With pairwise distinct names, the entry of a file is its own
    content, whatever the other files hold. *)
Lemma dataset_get (files : list entry) (d : dict) (g : entry) :
  NoDup (map name files) -> In g files ->
  dict_get (dataset files d) (name g) =
  match read (snd g) Ignore with
  | Ok content => Some content
  | Raised _ => dict_get d (name g)
  end.
Proof.
  revert d; induction files as [|h files IH]; simpl; intros d ND Hg;
    [contradiction|].
  inversion ND as [|? ? Hn Hd]; subst. destruct Hg as [->|Hg].
  - destruct (read (snd g) Ignore) as [content|e];
      rewrite dataset_get_other by exact Hn; [|reflexivity].
    now rewrite dict_get_set, str_eqb_refl.
  - assert (Hne : name h <> name g).
    { intros E. apply Hn. rewrite E. now apply in_map. }
    destruct (read (snd h) Ignore) as [content|e]; rewrite IH by assumption;
      [|reflexivity].
    destruct (read (snd g) Ignore); [reflexivity|].
    rewrite dict_get_set. apply str_eqb_neq in Hne. now rewrite Hne.
Qed.

(** Files that cannot be read leave no trace in the dataset. *)
Lemma dataset_without (files : list entry) (d : dict) (k : str) :
  (forall g, In g files -> name g = k ->
             exists e, read (snd g) Ignore = Raised e) ->
  dataset (filter (fun g => negb (str_eqb (name g) k)) files) d =
  dataset files d.
Proof.
  revert d; induction files as [|h files IH]; simpl; intros d H;
    [reflexivity|].
  destruct (str_eqb (name h) k) eqn:E; simpl.
  - apply str_eqb_eq in E. destruct (H h (or_introl eq_refl) E) as [e ->].
    apply IH. intros g Hg. apply H. now right.
  - destruct (read (snd h) Ignore); apply IH; intros g Hg; apply H;
      now right.
Qed.

Lemma distinct_names_eq (files : list entry) (g h : entry) :
  NoDup (map name files) -> In g files -> In h files ->
  name g = name h -> g = h.
Proof.
  induction files as [|a files IH]; simpl; intros ND Hg Hh E;
    [contradiction|].
  inversion ND as [|? ? Hn Hd]; subst.
  destruct Hg as [->|Hg], Hh as [->|Hh]; auto.
  - exfalso. apply Hn. rewrite E. now apply in_map.
  - exfalso. apply Hn. rewrite <- E. now apply in_map.
Qed.

(** ** Running the loop *)

Lemma set_stdout_nil (w : World) : set_stdout w (stdout w ++ []) = w.
Proof. destruct w. unfold set_stdout. simpl. now rewrite app_nil_r. Qed.

Lemma load_run (message_data : dict) (txt_file : entry) (w : World) :
  load message_data txt_file w =
  (Ok (dataset [txt_file] message_data),
   set_stdout w (stdout w ++ [load_line txt_file])).
Proof.
  unfold load, try_except, bind, open_read, print, ret, load_line. simpl.
  destruct (read (snd txt_file) Ignore); reflexivity.
Qed.

Lemma load_files_run (files : list entry) (message_data : dict)
      (w : World) :
  load_files files message_data w =
  (Ok (dataset files message_data),
   set_stdout w (stdout w ++ map load_line files)).
Proof.
  revert message_data w; induction files as [|f files IH];
    intros message_data w; simpl.
  - unfold ret. now rewrite set_stdout_nil.
  - unfold bind. rewrite load_run, IH. simpl.
    destruct (read (snd f) Ignore); unfold set_stdout; simpl;
      now rewrite <- app_assoc.
Qed.

(** [main] is the loop over the discovered files followed by the rest
    of the function. *)
Lemma main_run (w : World) :
  main w =
  bundle (dataset (discover (messages w)) [])
         (set_stdout w
            (stdout w
             ++ (lit "Found "
                 ++ str_of_nat (length (discover (messages w)))
                 ++ lit " conversation files")
             :: map load_line (discover (messages w)))).
Proof.
  unfold main, bind, glob, print. simpl. rewrite load_files_run. simpl.
  unfold set_stdout. simpl. now rewrite <- app_assoc.
Qed.

(** C7: when reading the template fails, [main] raises that very
    exception and the output path holds what it held before: nothing is
    written. *)
Theorem template_failure_propagates (w : World) (e : exn) :
  read (viewer_template_html w) Strict = Raised e ->
  fst (main w) = Raised e
  /\ viewer_html_file (snd (main w)) = viewer_html_file w.
Proof.
  intros H. rewrite main_run.
  unfold bundle, bind, viewer_template_path, open_read. simpl.
  rewrite H. simpl. split; reflexivity.
Qed.

Lemma template_failure_propagates_witness :
  let w := mkWorld [(lit "alice.txt", File (list_byte_of_string "Hello"))]
                   no_template (File (list_byte_of_string "old"))
                   (lit "viewer.html") [] in
  let e := FileNotFoundError
             (lit "[Errno 2] No such file or directory: 'viewer_template.html'")
  in
  read (viewer_template_html w) Strict = Raised e
  /\ fst (main w) = Raised e
  /\ viewer_html_file (snd (main w)) = viewer_html_file w.
Proof.
  cbv zeta. split; [reflexivity|].
  apply template_failure_propagates. reflexivity.
Defined.

(** The claim as written fails on a file with a carriage return: the
    bytes [a \r \n 0xFF] decode, invalid byte dropped, to [a \r \n], but
    the content loaded for the file is [a \n]. *)
Lemma load_content_is_not_the_decoding :
  let data := [x61; x0d; x0a; xff] in
  let f := (lit "dave.txt", File data) in
  let w := mkWorld [f] no_template no_output (lit "viewer.html") [] in
  exists text message_data w' content,
    utf8_decode Ignore data = Ok text
    /\ load_files (discover [f]) [] w = (Ok message_data, w')
    /\ dict_get message_data (name f) = Some content
    /\ text = [97; 13; 10] /\ content = [97; 10] /\ content <> text.
Proof.
  cbv zeta. eexists; eexists; eexists; eexists.
  split; [reflexivity|]. split; [vm_compute; reflexivity|].
  split; [vm_compute; reflexivity|].
  split; [vm_compute; reflexivity|]. split; [reflexivity|]. discriminate.
Qed.

(* ================================================================== *)
Lemma scenario_run (listing : list entry) (previous : option bytes)
      (path : str) (out : list str) :
  discover listing = [alice] ->
  let w := scenario listing previous path out in
  fst (main w) = Ok tt
  /\ viewer_html_file (snd (main w)) = File scenario_output.
Proof.
  intros Hd w. subst w. rewrite main_run.
  unfold scenario. cbn [messages]. rewrite Hd.
  destruct previous; split; vm_compute; reflexivity.
Qed.

(** C9: with [alice.txt] holding [Hello] and [orphaned.txt] holding
    [ignored], in either order of the listing, and the one-line
    template, [main] succeeds and the output file holds the bytes
    [scenario_output]. These bytes are the text
    [<script>window.IMESSAGE_DATA = D;</script>] where [D] is the
    [indent=2] layout of [{"alice.txt": "Hello"}]: [D] and the compact
    form of the specification parse to the same one-entry mapping, the
    document written and the document of the specification agree once
    whitespace is left out, and [orphaned.txt] occurs nowhere in the
    document written and is no key of the data. *)
Theorem scenario_alice_and_orphaned
        (previous : option bytes) (path : str) (out : list str) :
  (forall listing, listing = [alice; orphaned] \/ listing = [orphaned; alice] ->
     let w := scenario listing previous path out in
     fst (main w) = Ok tt
     /\ viewer_html_file (snd (main w)) = File scenario_output)
  /\ utf8_decode Strict scenario_output
     = Ok (lit "<script>window.IMESSAGE_DATA = " ++ scenario_json
           ++ lit ";</script>")
  /\ json_loads scenario_json = Some [(lit "alice.txt", lit "Hello")]
  /\ json_loads scenario_json_compact = Some [(lit "alice.txt", lit "Hello")]
  /\ option_map without_ws
       (match utf8_decode Strict scenario_output with
        | Ok document => Some document
        | Raised _ => None
        end)
     = Some (without_ws (lit "<script>window.IMESSAGE_DATA = "
                         ++ scenario_json_compact ++ lit ";</script>"))
  /\ option_map (occurrences (lit "orphaned.txt"))
       (match utf8_decode Strict scenario_output with
        | Ok document => Some document
        | Raised _ => None
        end)
     = Some O
  /\ option_map (fun d => dict_get d (lit "orphaned.txt"))
                (json_loads scenario_json) = Some None.
Proof.
  split.
  - intros listing [-> | ->]; apply scenario_run; vm_compute; reflexivity.
  - split; [|split; [|split; [|split; [|split]]]]; vm_compute; reflexivity.
Qed.

(* ================================================================== *)
(** * Serialization and its inverse *)
(* ================================================================== *)

Lemma in_escaped (c : char) :
  In c escaped <-> c < 32 \/ c = QUOTE \/ c = BACKSLASH.
Proof.
  unfold escaped. rewrite in_app_iff, in_map_iff. cbn [In]. split.
  - intros [(n & <- & Hn)|[<-|[<-|[]]]]; auto.
    apply in_seq in Hn. left. lia.
  - intros [H|[->| ->]]; auto. left. exists (N.to_nat c).
    rewrite N2Nat.id, in_seq. split; [reflexivity | lia].
Qed.

Lemma escape_char_plain (c : char) : ~ In c escaped -> escape_char c = [c].
Proof.
  rewrite in_escaped. unfold QUOTE, BACKSLASH. intros H.
  unfold escape_char, QUOTE, BACKSLASH.
  repeat match goal with
         | |- context [?a =? ?b] =>
             destruct (N.eqb_spec a b); [exfalso; lia|]
         end.
  destruct (N.ltb_spec c 0x20); [exfalso; lia | reflexivity].
Qed.

Lemma escaped_dec (c : char) : In c escaped \/ ~ In c escaped.
Proof.
  destruct (in_dec N.eq_dec c escaped); auto.
Qed.

(** One escaped character reads back as the character. *)
Lemma scanstring_escape_char (c : char) (tail : str) :
  scanstring (escape_char c ++ tail) = append_char c (scanstring tail).
Proof.
  destruct (escaped_dec c) as [H|H].
  - revert tail.
    assert (A : Forall (fun c => forall tail,
                  scanstring (escape_char c ++ tail)
                  = append_char c (scanstring tail)) escaped).
    { unfold escaped. simpl. repeat constructor. }
    rewrite Forall_forall in A. now apply A.
  - rewrite (escape_char_plain _ H). rewrite in_escaped in H. simpl.
    unfold QUOTE, BACKSLASH in *.
    destruct (N.eqb_spec c 34); [exfalso; lia|].
    destruct (N.eqb_spec c 92); [exfalso; lia|].
    destruct (N.ltb_spec c 0x20); [exfalso; lia | reflexivity].
Qed.

Lemma scanstring_escape (s rest : str) :
  scanstring (flat_map escape_char s ++ QUOTE :: rest) = Some (s, rest).
Proof.
  induction s as [|c s IH]; simpl; [reflexivity|].
  rewrite <- app_assoc, scanstring_escape_char, IH. reflexivity.
Qed.

Lemma join_cons (sep x : str) (l : list str) :
  join sep (x :: l) = x ++ flat_map (fun y => sep ++ y) l.
Proof.
  revert x; induction l as [|y l IH]; intros x; simpl.
  - now rewrite app_nil_r.
  - change (join sep (y :: l)) with
      (match l with [] => y | _ :: _ => y ++ sep ++ join sep l end).
    specialize (IH y). simpl in IH. rewrite IH.
    now rewrite <- !app_assoc.
Qed.

Lemma encode_item_tail (kv : str * str) :
  encode_item kv = QUOTE :: item_tail kv.
Proof.
  unfold encode_item, item_tail, encode_basestring. simpl.
  now rewrite <- !app_assoc.
Qed.

Lemma items_text (kv : str * str) (d : dict) :
  join item_separator (map encode_item (kv :: d)) =
  QUOTE :: item_tail kv ++ further_items d.
Proof.
  simpl map. rewrite join_cons, encode_item_tail. unfold further_items.
  simpl. f_equal. f_equal. now rewrite flat_map_concat_map, map_map,
    <- flat_map_concat_map.
Qed.

Lemma further_items_length (d : dict) :
  (length d <= length (further_items d))%nat.
Proof.
  induction d as [|kv d IH]; [simpl; lia|].
  unfold further_items in *. cbn [flat_map length].
  rewrite !length_app. unfold item_separator at 1.
  cbn [length app lit map list_ascii_of_string]. lia.
Qed.

(** One round of the loop of the decoder on an encoded item. *)
Lemma parse_members_step (k v : str) (pairs : list (str * str))
      (tail : str) (fuel : nat) :
  parse_members (S fuel) (item_tail (k, v) ++ tail) pairs =
  match skip_ws tail with
  | [] => None
  | nextchar :: s5 =>
      if nextchar =? 125 then Some (pairs ++ [(k, v)], s5)
      else if nextchar =? 44 then
        match skip_ws s5 with
        | [] => None
        | q' :: s6 =>
            if q' =? QUOTE then parse_members fuel s6 (pairs ++ [(k, v)])
            else None
        end
      else None
  end.
Proof.
  unfold item_tail. simpl.
  rewrite <- app_assoc. simpl. rewrite scanstring_escape. simpl.
  rewrite <- app_assoc. simpl. rewrite scanstring_escape. reflexivity.
Qed.

(** The loop of the decoder reads back the items it is given. *)
Lemma parse_members_items (d : dict) :
  forall (kv : str * str) (pairs : list (str * str)) (rest : str)
         (fuel : nat),
    (length d < fuel)%nat ->
    parse_members fuel
      (item_tail kv ++ further_items d ++ LF :: 125 :: rest) pairs
    = Some (pairs ++ kv :: d, rest).
Proof.
  induction d as [|kv' d IH]; intros [k v] pairs rest fuel Hf;
    (destruct fuel as [|fuel]; [simpl in Hf; lia|]);
    rewrite parse_members_step.
  - reflexivity.
  - change (further_items (kv' :: d))
      with ((item_separator ++ encode_item kv') ++ further_items d).
    rewrite encode_item_tail.
    change ((item_separator ++ QUOTE :: item_tail kv') ++ further_items d)
      with (44 :: LF :: 32 :: 32 :: QUOTE
            :: (item_tail kv' ++ further_items d)).
    cbn [app skip_ws is_ws N.eqb Pos.eqb orb LF QUOTE].
    rewrite <- app_assoc.
    rewrite IH by (simpl in Hf; lia).
    now rewrite <- app_assoc.
Qed.

Lemma dict_set_fresh (d : dict) (k v : str) :
  ~ In k (keys d) -> dict_set d k v = d ++ [(k, v)].
Proof.
  induction d as [|[k0 v0] d IH]; simpl; intros H; [reflexivity|].
  destruct (str_eqb k0 k) eqn:E.
  - apply str_eqb_eq in E. tauto.
  - rewrite IH by tauto. reflexivity.
Qed.

Lemma dict_of_pairs_distinct (pairs acc : list (str * str)) :
  NoDup (keys (acc ++ pairs)) ->
  fold_left (fun d kv => dict_set d (fst kv) (snd kv)) pairs acc
  = acc ++ pairs.
Proof.
  revert acc; induction pairs as [|[k v] pairs IH]; intros acc ND; simpl.
  - now rewrite app_nil_r.
  - assert (Hk : ~ In k (keys acc)).
    { unfold keys in *. rewrite map_app in ND. simpl in ND.
      apply NoDup_remove_2 in ND. intros Hin. apply ND.
      apply in_or_app. now left. }
    rewrite dict_set_fresh by exact Hk.
    rewrite IH; rewrite <- app_assoc; [reflexivity | exact ND].
Qed.

Lemma json_dumps_cons (kv : str * str) (d : dict) :
  json_dumps (kv :: d) =
  123 :: LF :: 32 :: 32 :: QUOTE
  :: item_tail kv ++ further_items d ++ LF :: 125 :: [].
Proof.
  unfold json_dumps. rewrite items_text.
  change (lit "{" ++ newline_indent
          ++ (QUOTE :: item_tail kv ++ further_items d) ++ [LF] ++ lit "}")
    with (123 :: LF :: 32 :: 32 :: QUOTE
          :: (item_tail kv ++ further_items d) ++ LF :: 125 :: []).
  now rewrite <- app_assoc.
Qed.

Lemma json_loads_dumps (d : dict) :
  NoDup (keys d) -> json_loads (json_dumps d) = Some d.
Proof.
  intros ND. destruct d as [|kv d]; [reflexivity|].
  rewrite json_dumps_cons.
  set (s1 := item_tail kv ++ further_items d ++ LF :: 125 :: []).
  assert (P : parse_members (length s1) s1 [] = Some (kv :: d, [])).
  { apply (parse_members_items d kv [] []). unfold s1.
    rewrite !length_app. pose proof (further_items_length d). simpl. lia. }
  unfold json_loads, JSONObject.
  cbn [skip_ws is_ws N.eqb Pos.eqb orb LF QUOTE].
  fold QUOTE LF. fold s1. rewrite P. cbn [skip_ws]. unfold dict_of_pairs.
  now rewrite (dict_of_pairs_distinct (kv :: d) []).
Qed.

(** ** Characters outside ASCII are not escaped *)

Lemma filter_escape_char (c : char) :
  filter non_ascii (escape_char c) = filter non_ascii [c].
Proof.
  destruct (escaped_dec c) as [H|H].
  - assert (A : Forall (fun c => filter non_ascii (escape_char c)
                                 = filter non_ascii [c]) escaped).
    { unfold escaped. simpl. repeat constructor. }
    rewrite Forall_forall in A. now apply A.
  - now rewrite (escape_char_plain _ H).
Qed.

Lemma filter_escape (s : str) :
  filter non_ascii (flat_map escape_char s) = filter non_ascii s.
Proof.
  induction s as [|c s IH]; [reflexivity|].
  cbn [flat_map]. rewrite filter_app, filter_escape_char, IH.
  now rewrite <- filter_app.
Qed.

Lemma filter_item_tail (kv : str * str) :
  filter non_ascii (item_tail kv) =
  filter non_ascii (fst kv) ++ filter non_ascii (snd kv).
Proof.
  unfold item_tail.
  rewrite filter_app, filter_escape.
  change (QUOTE :: key_separator ++ QUOTE
          :: flat_map escape_char (snd kv) ++ [QUOTE])
    with ([QUOTE; 58; 32; QUOTE] ++ flat_map escape_char (snd kv) ++ [QUOTE]).
  rewrite !filter_app, filter_escape. cbn. now rewrite app_nil_r.
Qed.

Lemma filter_further_items (d : dict) :
  filter non_ascii (further_items d) =
  flat_map (fun kv => filter non_ascii (fst kv) ++ filter non_ascii (snd kv))
           d.
Proof.
  induction d as [|kv d IH]; [reflexivity|].
  change (further_items (kv :: d))
    with ((item_separator ++ encode_item kv) ++ further_items d).
  rewrite encode_item_tail.
  change (item_separator ++ QUOTE :: item_tail kv)
    with ([44; LF; 32; 32; QUOTE] ++ item_tail kv).
  rewrite !filter_app, filter_item_tail, IH. reflexivity.
Qed.

(** C2: serializing a mapping (a [dict], whose keys are pairwise
    distinct) and parsing the text gives the mapping back, with the same
    keys in the same order and the same content for each; and the
    characters outside ASCII of the serialized text are exactly those of
    the keys and contents, in order: none of them is escaped. *)
Theorem json_round_trip (d : dict) :
  NoDup (keys d) ->
  json_loads (json_dumps d) = Some d
  /\ filter non_ascii (json_dumps d)
     = flat_map (fun kv => filter non_ascii (fst kv)
                           ++ filter non_ascii (snd kv)) d.
Proof.
  intros ND. split; [now apply json_loads_dumps|].
  destruct d as [|kv d]; [reflexivity|].
  rewrite json_dumps_cons.
  change (123 :: LF :: 32 :: 32 :: QUOTE
          :: item_tail kv ++ further_items d ++ LF :: 125 :: [])
    with ([123; LF; 32; 32; QUOTE]
          ++ item_tail kv ++ further_items d ++ [LF; 125]).
  rewrite !filter_app, filter_item_tail, filter_further_items.
  change (filter non_ascii [LF; 125]) with (@nil char).
  change (filter non_ascii [123; LF; 32; 32; QUOTE]) with (@nil char).
  rewrite app_nil_r. reflexivity.
Qed.

Lemma json_round_trip_witness :
  let d := [(lit "zoe.txt", [90; 111; 235; 34; 10; 128512; 92; 7]);
            (lit "al.txt", [])] in
  NoDup (keys d)
  /\ json_loads (json_dumps d) = Some d
  /\ filter non_ascii (json_dumps d)
     = flat_map (fun kv => filter non_ascii (fst kv)
                           ++ filter non_ascii (snd kv)) d.
Proof.
  cbv zeta.
  assert (ND : NoDup (keys [(lit "zoe.txt",
                             [90; 111; 235; 34; 10; 128512; 92; 7]);
                            (lit "al.txt", [])])).
  { repeat constructor; simpl; intuition discriminate. }
  split; [exact ND|]. apply json_round_trip. exact ND.
Defined.

(* ================================================================== *)
(** * Texts free of a pattern *)
(* ================================================================== *)

Lemma occurs_at_nth (sub s : str) (i j : nat) :
  occurs_at sub s i = true -> (j < length sub)%nat ->
  nth_error s (i + j) = nth_error sub j.
Proof.
  unfold occurs_at. intros H Hj. destruct (startswith_inv _ _ H) as [v E].
  rewrite <- nth_error_skipn, E. now apply nth_error_app1.
Qed.

Section Clean.

Variable sub : str.
Hypothesis sub_nonempty : sub <> [].

Lemma clean_short (x : str) :
  (length x < length sub)%nat -> occurrences sub x = O.
Proof.
  intros H. apply occurrences_zero. intros i Hi.
  destruct (occurs_at sub x i) eqn:E; [|reflexivity].
  apply (occurs_at_bound _ _ _ sub_nonempty) in E. lia.
Qed.

(** A text that lacks some character of the pattern is free of it. *)
Lemma clean_without (c : char) (x : str) :
  In c sub -> ~ In c x -> occurrences sub x = O.
Proof.
  intros Hc Hx. apply occurrences_zero. intros i Hi.
  destruct (occurs_at sub x i) eqn:E; [exfalso|reflexivity].
  destruct (In_nth_error _ _ Hc) as [j Hj].
  assert (Lj : (j < length sub)%nat)
    by (apply nth_error_Some; congruence).
  pose proof (occurs_at_nth _ _ _ _ E Lj) as N. rewrite Hj in N.
  apply Hx. eapply nth_error_In. exact N.
Qed.

(** A character foreign to the pattern separates: the pattern cannot
    reach across it. *)
Lemma clean_break (b : char) (x y : str) :
  ~ In b sub -> occurrences sub x = O -> occurrences sub y = O ->
  occurrences sub (x ++ b :: y) = O.
Proof.
  intros Hb Hx Hy. apply occurrences_zero. intros i Hi.
  destruct (occurs_at sub (x ++ b :: y) i) eqn:E; [exfalso|reflexivity].
  pose proof (occurs_at_bound _ _ _ sub_nonempty E) as B.
  destruct (Nat.le_gt_cases (i + length sub) (length x)) as [L|L].
  - rewrite occurs_at_left in E by exact L.
    rewrite (proj1 (occurrences_zero sub x) Hx) in E by lia. discriminate.
  - destruct (Nat.le_gt_cases i (length x)) as [M|M].
    + assert (Lj : (length x - i < length sub)%nat) by lia.
      pose proof (occurs_at_nth _ _ _ _ E Lj) as N.
      replace (i + (length x - i))%nat with (length x) in N by lia.
      rewrite nth_error_app2, Nat.sub_diag in N by lia. simpl in N.
      apply Hb. eapply nth_error_In. symmetry. exact N.
    + change (x ++ b :: y) with (x ++ [b] ++ y) in E.
      rewrite app_assoc, occurs_at_right in E
        by (rewrite length_app; simpl; lia).
      rewrite length_app in B. simpl in B.
      rewrite (proj1 (occurrences_zero sub y) Hy) in E
        by (rewrite length_app; simpl; lia).
      discriminate.
Qed.

Lemma clean_tail (c : char) (x : str) :
  occurrences sub (c :: x) = O -> occurrences sub x = O.
Proof.
  intros H. apply occurrences_zero. intros i Hi.
  exact (proj1 (occurrences_zero sub (c :: x)) H (S i) (le_n_S _ _ Hi)).
Qed.

End Clean.

(** ** The serialized items *)

Lemma item_tail_app (kv : str * str) (tail : str) :
  item_tail kv ++ tail =
  flat_map escape_char (fst kv)
  ++ QUOTE :: ([58; 32] ++ QUOTE
               :: (flat_map escape_char (snd kv) ++ QUOTE :: tail)).
Proof.
  unfold item_tail. rewrite <- app_assoc. simpl. f_equal. f_equal.
  f_equal. f_equal. f_equal. now rewrite <- app_assoc.
Qed.

Lemma further_items_cons (kv : str * str) (d : dict) (tail : str) :
  further_items (kv :: d) ++ tail =
  [] ++ 44 :: ([LF; 32; 32] ++ QUOTE
               :: (item_tail kv ++ further_items d ++ tail)).
Proof.
  change (further_items (kv :: d))
    with ((item_separator ++ encode_item kv) ++ further_items d).
  rewrite encode_item_tail.
  change (item_separator ++ QUOTE :: item_tail kv)
    with (44 :: LF :: 32 :: 32 :: QUOTE :: item_tail kv).
  simpl. now rewrite <- app_assoc.
Qed.

Section SerializedClean.

Variable sub : str.
Hypothesis sub_nonempty : sub <> [].
Hypothesis no_quote : ~ In QUOTE sub.
Hypothesis no_comma : ~ In 44 sub.
Hypothesis colon_clean : occurrences sub [58; 32] = O.
Hypothesis indent_clean : occurrences sub [LF; 32; 32] = O.

Lemma item_tail_clean (kv : str * str) (tail : str) :
  occurrences sub (flat_map escape_char (fst kv)) = O ->
  occurrences sub (flat_map escape_char (snd kv)) = O ->
  occurrences sub tail = O ->
  occurrences sub (item_tail kv ++ tail) = O.
Proof.
  intros Hk Hv Ht. rewrite item_tail_app.
  apply clean_break; auto. apply clean_break; auto.
  apply clean_break; auto.
Qed.

Lemma further_items_clean (d : dict) (tail : str) :
  strings_clean sub d -> occurrences sub tail = O ->
  occurrences sub (further_items d ++ tail) = O.
Proof.
  intros Hd Ht. induction d as [|kv d IH]; [exact Ht|].
  rewrite further_items_cons.
  apply clean_break; auto.
  { apply clean_short; auto. destruct sub; [congruence | simpl; lia]. }
  apply clean_break; auto.
  apply item_tail_clean; try (apply Hd; now left).
  apply IH. intros kv' Hin. apply Hd. now right.
Qed.

Lemma items_clean (head : str) (kv : str * str) (d : dict) (tail : str) :
  occurrences sub head = O -> strings_clean sub (kv :: d) ->
  occurrences sub tail = O ->
  occurrences sub (head ++ QUOTE :: item_tail kv ++ further_items d ++ tail)
  = O.
Proof.
  intros Hh Hd Ht. apply clean_break; auto.
  apply item_tail_clean; try (apply Hd; now left).
  apply further_items_clean; auto.
  intros kv' Hin. apply Hd. now right.
Qed.

End SerializedClean.

(** ** Escaping *)

Lemma escaped_shape (c : char) :
  In c escaped ->
  exists t, escape_char c = BACKSLASH :: t /\ ~ In 119 t /\ ~ In LF t.
Proof.
  intros H.
  assert (A : forallb
                (fun c => match escape_char c with
                          | [] => false
                          | b :: t => (b =? BACKSLASH)
                                      && negb (existsb (N.eqb 119) t)
                                      && negb (existsb (N.eqb LF) t)
                          end) escaped = true) by (vm_compute; reflexivity).
  rewrite forallb_forall in A. specialize (A c H).
  destruct (escape_char c) as [|b t]; [discriminate|].
  apply andb_true_iff in A as [A A3]. apply andb_true_iff in A as [A1 A2].
  apply N.eqb_eq in A1. subst b. exists t. split; [reflexivity|].
  apply negb_true_iff in A2, A3. split; intros Hin.
  - assert (E : existsb (N.eqb 119) t = true)
      by (apply existsb_exists; exists 119; split; [exact Hin|apply N.eqb_refl]).
    congruence.
  - assert (E : existsb (N.eqb LF) t = true)
      by (apply existsb_exists; exists LF; split; [exact Hin|apply N.eqb_refl]).
    congruence.
Qed.

Lemma escape_no_LF (s : str) : ~ In LF (flat_map escape_char s).
Proof.
  intros H. apply in_flat_map in H as (c & _ & H).
  destruct (escaped_dec c) as [E|E].
  - destruct (escaped_shape c E) as (t & Et & _ & Ht). rewrite Et in H.
    destruct H as [H|H]; [discriminate | contradiction].
  - rewrite (escape_char_plain _ E) in H. destruct H as [->|[]].
    apply E. apply in_escaped. left. reflexivity.
Qed.

(** A pattern without backslash that starts an escaped text starts the
    text itself. *)
Lemma startswith_escape (m s : str) :
  ~ In BACKSLASH m ->
  startswith (flat_map escape_char s) m = true -> startswith s m = true.
Proof.
  revert s; induction m as [|p m IH]; intros s Hm H; [reflexivity|].
  destruct s as [|c s]; [discriminate|]. cbn [flat_map] in H.
  destruct (escaped_dec c) as [E|E].
  - destruct (escaped_shape c E) as (t & Et & _). rewrite Et in H.
    cbn [startswith app] in H.
    apply andb_true_iff in H as [H _]. apply N.eqb_eq in H.
    exfalso. apply Hm. left. now symmetry.
  - rewrite (escape_char_plain _ E) in H. cbn [startswith app] in H |- *.
    apply andb_true_iff in H as [H1 H2]. rewrite H1. cbn [andb].
    apply IH; [|exact H2]. intros Hin. apply Hm. now right.
Qed.

Lemma escape_clean (s : str) :
  occurrences MARKER s = O ->
  occurrences MARKER (flat_map escape_char s) = O.
Proof.
  induction s as [|c s IH]; intros H; [exact H|].
  pose proof (IH (clean_tail MARKER c s H)) as IHs.
  cbn [flat_map]. destruct (escaped_dec c) as [E|E].
  - destruct (escaped_shape c E) as (t & Et & Ht & _). rewrite Et.
    change ((BACKSLASH :: t) ++ flat_map escape_char s)
      with ([] ++ BACKSLASH :: (t ++ flat_map escape_char s)).
    apply clean_break; [exact MARKER_nonempty | | reflexivity |].
    + vm_compute. intuition discriminate.
    + apply occurrences_zero. intros i Hi.
      destruct (occurs_at MARKER (t ++ flat_map escape_char s) i) eqn:Oc;
        [exfalso|reflexivity].
      destruct (Nat.le_gt_cases (length t) i) as [L|L].
      * rewrite occurs_at_right in Oc by exact L.
        rewrite (proj1 (occurrences_zero _ _) IHs) in Oc; [discriminate|].
        rewrite length_app in Hi. lia.
      * assert (L0 : (0 < length MARKER)%nat) by (rewrite MARKER_length; lia).
        pose proof (occurs_at_nth _ _ _ _ Oc L0) as N.
        rewrite Nat.add_0_r, nth_error_app1 in N by exact L.
        apply Ht. eapply nth_error_In. exact N.
  - rewrite (escape_char_plain _ E).
    apply occurrences_zero. intros [|i] Hi.
    + destruct (occurs_at MARKER ([c] ++ flat_map escape_char s) 0) eqn:Oc;
        [exfalso|reflexivity].
      unfold occurs_at in Oc. cbn [skipn] in Oc.
      rewrite <- (escape_char_plain _ E) in Oc.
      change (escape_char c ++ flat_map escape_char s)
        with (flat_map escape_char (c :: s)) in Oc.
      apply startswith_escape in Oc; [|vm_compute; intuition discriminate].
      pose proof (proj1 (occurrences_zero _ _) H 0%nat (Nat.le_0_l _)) as Z.
      unfold occurs_at in Z. cbn [skipn] in Z. congruence.
    + apply (proj1 (occurrences_zero _ _) IHs). simpl in Hi. lia.
Qed.

(** ** The assignment of a non-empty dataset *)

Lemma not_In_existsb (c : char) (l : str) :
  existsb (N.eqb c) l = false -> ~ In c l.
Proof.
  intros H Hin.
  assert (E : existsb (N.eqb c) l = true)
    by (apply existsb_exists; exists c; split; [exact Hin|apply N.eqb_refl]).
  congruence.
Qed.

Lemma assignment_cons (kv : str * str) (d : dict) :
  assignment (json_dumps (kv :: d)) =
  (lit "window.IMESSAGE_DATA = " ++ [123; LF; 32; 32])
  ++ QUOTE :: item_tail kv ++ further_items d ++ [LF; 125; 59].
Proof.
  unfold assignment. rewrite json_dumps_cons.
  rewrite <- !app_assoc. simpl. do 28 f_equal.
  rewrite <- !app_assoc. reflexivity.
Qed.

(** The marker does not occur in the assignment of a non-empty dataset
    whose keys and contents are free of it. *)
Lemma assignment_clean (kv : str * str) (d : dict) :
  (forall k v, In (k, v) (kv :: d) ->
               occurrences MARKER k = O /\ occurrences MARKER v = O) ->
  occurrences MARKER (assignment (json_dumps (kv :: d))) = O.
Proof.
  intros H. rewrite assignment_cons.
  apply items_clean; try exact MARKER_nonempty;
    try (apply not_In_existsb; vm_compute; reflexivity);
    try (vm_compute; reflexivity).
  intros [k v] Hin. destruct (H k v Hin) as [Hk Hv].
  split; now apply escape_clean.
Qed.

Lemma occurs_at_suffix (u r s : str) (k : nat) :
  occurs_at (u ++ r) s k = true -> occurs_at r s (k + length u) = true.
Proof.
  unfold occurs_at. intros H. destruct (startswith_inv _ _ H) as [v E].
  rewrite Nat.add_comm, <- skipn_skipn, E, <- app_assoc.
  rewrite skipn_app, skipn_all, Nat.sub_diag. simpl. apply startswith_app.
Qed.

Lemma In_firstn (c : char) (n : nat) (l : str) :
  In c (firstn n l) -> In c l.
Proof.
  intros H. rewrite <- (firstn_skipn n l). apply in_or_app. now left.
Qed.

(** The brace followed by a line feed that opens the serialized data. *)
Lemma opening_borderless : borderless [123; LF].
Proof.
  intros k Hk. simpl in Hk. assert (k = 1%nat) as -> by lia. reflexivity.
Qed.

Lemma assignment_opening (kv : str * str) (d : dict) :
  assignment (json_dumps (kv :: d)) =
  lit "window.IMESSAGE_DATA = " ++ [123; LF]
  ++ ([32; 32] ++ QUOTE
      :: item_tail kv ++ further_items d ++ [LF; 125; 59]).
Proof. rewrite assignment_cons. now rewrite <- app_assoc. Qed.

(** In the assignment of a non-empty dataset the opening occurs once,
    behind [window.IMESSAGE_DATA = ]. *)
Lemma opening_once (kv : str * str) (d : dict) (j : nat) :
  occurs_at [123; LF] (assignment (json_dumps (kv :: d))) j = true ->
  j = 23%nat.
Proof.
  rewrite assignment_opening.
  set (P := lit "window.IMESSAGE_DATA = ").
  set (B := [32; 32] ++ QUOTE
            :: item_tail kv ++ further_items d ++ [LF; 125; 59]).
  intros H.
  assert (HR : [123; LF] <> []) by discriminate.
  assert (HB : occurrences [123; LF] B = O).
  { unfold B. apply items_clean; try exact HR;
      try (apply not_In_existsb; vm_compute; reflexivity);
      try (vm_compute; reflexivity).
    intros kv' _. split;
      apply (clean_without [123; LF] LF); try (simpl; tauto);
      apply escape_no_LF. }
  assert (HP : occurrences [123; LF] P = O) by (vm_compute; reflexivity).
  assert (LP : length P = 23%nat) by reflexivity.
  pose proof (occurs_at_app [123; LF] P B) as H23.
  pose proof (occurs_at_bound _ _ _ HR H) as Bj.
  clearbody B P. unfold str, char in *. rewrite LP in H23.
  rewrite !length_app, LP in Bj. cbn [length] in Bj.
  destruct (Nat.lt_trichotomy j 23) as [L|[E|L]]; [exfalso | exact E | exfalso].
  - pose proof (no_overlap _ opening_borderless HR _ _ _ H H23 L) as G.
    cbn [length] in G. rewrite occurs_at_left in H
      by (unfold str, char in *; cbn [length]; lia).
    rewrite (proj1 (occurrences_zero _ _) HP) in H; [discriminate|].
    unfold str, char in *. lia.
  - pose proof (no_overlap _ opening_borderless HR _ _ _ H23 H L) as G.
    cbn [length] in G. rewrite app_assoc in H.
    rewrite occurs_at_right in H
      by (unfold str, char in *; rewrite length_app, LP; cbn [length]; lia).
    rewrite (proj1 (occurrences_zero _ _) HB) in H; [discriminate|].
    unfold str, char in *. rewrite length_app, LP. cbn [length]. lia.
Qed.

Lemma assignment_borderless (kv : str * str) (d : dict) :
  borderless (assignment (json_dumps (kv :: d))).
Proof.
  intros k Hk.
  destruct (startswith (assignment (json_dumps (kv :: d)))
              (skipn k (assignment (json_dumps (kv :: d))))) eqn:E;
    [exfalso|reflexivity].
  set (A := assignment (json_dumps (kv :: d))) in *.
  set (y := skipn k A) in *.
  assert (Ly : length y = (length A - k)%nat)
    by (unfold y; apply length_skipn).
  assert (H59 : In 59 y).
  { unfold y, A. rewrite assignment_cons.
    set (z := lit "window.IMESSAGE_DATA = " ++ [123; LF; 32; 32]).
    replace (z ++ QUOTE :: item_tail kv ++ further_items d ++ [LF; 125; 59])
      with ((z ++ QUOTE :: item_tail kv ++ further_items d ++ [LF; 125])
            ++ [59]).
    2:{ rewrite <- !app_assoc. simpl. do 2 f_equal.
        rewrite <- !app_assoc. reflexivity. }
    rewrite skipn_app. apply in_or_app. right.
    match goal with |- In _ (skipn ?n _) => replace n with 0%nat end;
      [now left|].
    unfold A in Hk. rewrite assignment_cons in Hk.
    fold z in Hk. rewrite !length_app in Hk |- *. simpl in Hk |- *.
    rewrite !length_app in Hk |- *. simpl in Hk |- *. lia. }
  pose proof (startswith_firstn _ _ E) as F.
  destruct (Nat.le_gt_cases (length y) 24) as [L|L].
  - rewrite <- F in H59. unfold A in H59. rewrite assignment_cons in H59.
    change (lit "window.IMESSAGE_DATA = " ++ [123; LF; 32; 32])
      with ((lit "window.IMESSAGE_DATA = " ++ [123]) ++ [LF; 32; 32])
      in H59.
    rewrite <- app_assoc, firstn_app in H59.
    change (length (lit "window.IMESSAGE_DATA = " ++ [123])) with 24%nat
      in H59.
    replace (length y - 24)%nat with 0%nat in H59 by lia.
    rewrite firstn_O, app_nil_r in H59. apply In_firstn in H59.
    revert H59. apply not_In_existsb. vm_compute. reflexivity.
  - assert (Q : occurs_at (lit "window.IMESSAGE_DATA = " ++ [123; LF]) A k
                = true).
    { unfold occurs_at. fold y.
      destruct (startswith_inv _ _ E) as [v Ev].
      assert (SA : startswith A (lit "window.IMESSAGE_DATA = " ++ [123; LF])
                   = true).
      { unfold A. rewrite assignment_opening, app_assoc.
        apply startswith_app. }
      rewrite Ev, startswith_app_short in SA; [exact SA|].
      simpl. lia. }
    apply occurs_at_suffix in Q. apply opening_once in Q.
    simpl in Q. lia.
Qed.

(** ** One marker, replaced *)

Lemma occurrences_one_inv (sub s : str) :
  occurrences sub s = 1%nat ->
  exists i, (i <= length s)%nat /\ occurs_at sub s i = true
    /\ forall x, (x <= length s)%nat -> occurs_at sub s x = true -> x = i.
Proof.
  intros H. unfold occurrences in H.
  pose proof (in_positions sub s) as IP.
  destruct (positions sub s) as [|i [|j l]]; try discriminate.
  assert (Hi : In i [i]) by now left.
  apply IP in Hi as [Li Oi]. exists i. repeat split; auto.
  intros x Lx Ox. assert (Hx : In x [i]) by (apply IP; auto).
  destruct Hx as [<-|[]]. reflexivity.
Qed.

(** No proper tail of the marker starts the assignment. *)
Lemma marker_tail_not_prefix (k : nat) (r : str) :
  (0 < k < 26)%nat ->
  startswith (lit "window.IMESSAGE_DATA = " ++ r) (skipn k MARKER) = false.
Proof.
  intros Hk. destruct k as [|k]; [lia|].
  do 25 (destruct k as [|k]; [reflexivity|]). lia.
Qed.

(** The semicolon ends the marker and stands nowhere else in it. *)
Lemma marker_prefix_no_semicolon (k : nat) :
  (k < 26)%nat -> ~ In 59 (firstn k MARKER).
Proof.
  intros Hk Hin.
  replace k with (Nat.min k 25) in Hin by lia.
  rewrite <- firstn_firstn in Hin. apply In_firstn in Hin.
  revert Hin. apply not_In_existsb. vm_compute. reflexivity.
Qed.

Lemma assignment_ends (data_json : str) (y : nat) :
  (y < length (assignment data_json))%nat ->
  In 59 (skipn y (assignment data_json)).
Proof.
  unfold assignment. rewrite app_assoc, length_app. cbn [length lit map
    list_ascii_of_string]. intros Hy.
  rewrite skipn_app. apply in_or_app. right.
  match goal with |- In _ (skipn ?n _) => replace n with 0%nat by lia end.
  now left.
Qed.

Lemma assignment_nonempty (data_json : str) : assignment data_json <> [].
Proof. discriminate. Qed.

Lemma inject_once_marker_free
      (pre suf : str) (kv : str * str) (d : dict) :
  occurrences MARKER (pre ++ MARKER ++ suf) = 1%nat ->
  (forall k v, In (k, v) (kv :: d) ->
               occurrences MARKER k = O /\ occurrences MARKER v = O) ->
  occurrences MARKER (pre ++ assignment (json_dumps (kv :: d)) ++ suf) = O.
Proof.
  intros H1 Hkv.
  pose proof (assignment_clean kv d Hkv) as HA.
  set (A := assignment (json_dumps (kv :: d))) in *.
  destruct (occurrences_one_inv _ _ H1) as (i & Li & Oi & Ui).
  assert (Ei : i = length pre).
  { symmetry. apply Ui; [|apply occurs_at_app].
    rewrite !length_app. lia. }
  subst i.
  apply occurrences_zero. intros x Hx.
  destruct (occurs_at MARKER (pre ++ A ++ suf) x) eqn:Ox;
    [exfalso|reflexivity].
  pose proof (occurs_at_bound _ _ _ MARKER_nonempty Ox) as Bx.
  rewrite MARKER_length, !length_app in Bx.
  destruct (Nat.le_gt_cases (length pre) x) as [Lx|Lx].
  - rewrite occurs_at_right in Ox by exact Lx.
    set (y := (x - length pre)%nat) in *.
    destruct (Nat.le_gt_cases (length A) y) as [Ly|Ly].
    + rewrite occurs_at_right in Ox by exact Ly.
      assert (Ot : occurs_at MARKER (pre ++ MARKER ++ suf)
                     (length pre + 26 + (y - length A)) = true).
      { rewrite app_assoc, occurs_at_right
          by (rewrite length_app, MARKER_length; lia).
        rewrite length_app, MARKER_length.
        replace (length pre + 26 + (y - length A) - (length pre + 26))%nat
          with (y - length A)%nat by lia.
        exact Ox. }
      apply Ui in Ot; [lia|].
      rewrite !length_app, MARKER_length. unfold y in *. lia.
    + destruct (Nat.le_gt_cases (y + 26) (length A)) as [Ly2|Ly2].
      * rewrite occurs_at_left in Ox by (rewrite MARKER_length; exact Ly2).
        rewrite (proj1 (occurrences_zero _ _) HA) in Ox by lia.
        discriminate.
      * destruct (occurs_at_straddle _ _ _ _ Ox) as [_ S];
          [lia | rewrite MARKER_length; lia |].
        pose proof (assignment_ends (json_dumps (kv :: d)) y Ly) as H59.
        fold A in H59. rewrite S in H59.
        revert H59. apply marker_prefix_no_semicolon. lia.
  - destruct (Nat.le_gt_cases (x + 26) (length pre)) as [Lx2|Lx2].
    + assert (Ot : occurs_at MARKER (pre ++ MARKER ++ suf) x = true).
      { rewrite occurs_at_left by (rewrite MARKER_length; exact Lx2).
        rewrite occurs_at_left in Ox by (rewrite MARKER_length; exact Lx2).
        exact Ox. }
      apply Ui in Ot; [lia|]. rewrite !length_app. lia.
    + destruct (occurs_at_straddle _ _ _ _ Ox) as [S _];
        [lia | rewrite MARKER_length; lia |].
      unfold A, assignment in S. rewrite <- !app_assoc in S.
      rewrite marker_tail_not_prefix in S by lia. discriminate.
Qed.

Lemma inject_once_assignment_once
      (pre suf : str) (kv : str * str) (d : dict) :
  occurrences (assignment (json_dumps (kv :: d))) (pre ++ MARKER ++ suf) = O ->
  occurrences (assignment (json_dumps (kv :: d)))
              (pre ++ assignment (json_dumps (kv :: d)) ++ suf) = 1%nat.
Proof.
  intros H3.
  pose proof (assignment_borderless kv d) as BA.
  pose proof (assignment_nonempty (json_dumps (kv :: d))) as NA.
  set (A := assignment (json_dumps (kv :: d))) in *.
  pose proof (occurs_at_app A pre suf) as Op.
  apply (occurrences_one_intro A _ (length pre)); [|exact Op|].
  { rewrite !length_app. lia. }
  intros x Hx Ox.
  destruct (Nat.lt_trichotomy x (length pre)) as [L|[E|L]];
    [exfalso | exact E | exfalso].
  - pose proof (no_overlap A BA NA _ _ _ Ox Op L) as G.
    rewrite occurs_at_left in Ox by exact G.
    assert (Ot : occurs_at A (pre ++ MARKER ++ suf) x = true)
      by (rewrite occurs_at_left by exact G; exact Ox).
    rewrite (proj1 (occurrences_zero _ _) H3) in Ot; [discriminate|].
    rewrite !length_app. lia.
  - pose proof (no_overlap A BA NA _ _ _ Op Ox L) as G.
    pose proof (occurs_at_bound _ _ _ NA Ox) as Bx.
    rewrite !length_app in Bx.
    rewrite app_assoc, occurs_at_right in Ox by (rewrite length_app; lia).
    rewrite length_app in Ox.
    assert (Ot : occurs_at A (pre ++ MARKER ++ suf)
                   (length pre + 26 + (x - (length pre + length A))) = true).
    { rewrite app_assoc, occurs_at_right
        by (rewrite length_app, MARKER_length; lia).
      rewrite length_app, MARKER_length.
      replace (length pre + 26 + (x - (length pre + length A))
               - (length pre + 26))%nat
        with (x - (length pre + length A))%nat by lia.
      exact Ox. }
    rewrite (proj1 (occurrences_zero _ _) H3) in Ot; [discriminate|].
    rewrite !length_app, MARKER_length. lia.
Qed.

(** C1, as the code has it: for a template with exactly one marker and
    a dataset that is not empty and has the marker in no key and no
    content, and when the assignment text is not already somewhere in
    the template, the injected document has no marker left and exactly
    one occurrence of the assignment. *)
Theorem inject_once (template : str) (d : dict) :
  occurrences MARKER template = 1%nat ->
  d <> [] ->
  (forall k v, In (k, v) d ->
               occurrences MARKER k = O /\ occurrences MARKER v = O) ->
  occurrences (assignment (json_dumps d)) template = O ->
  occurrences MARKER (inject template (json_dumps d)) = O
  /\ occurrences (assignment (json_dumps d))
                 (inject template (json_dumps d)) = 1%nat.
Proof.
  intros H1 Hd Hkv H3. destruct d as [|kv d]; [congruence|].
  destruct (occurrences_one_inv _ _ H1) as (i & Li & Oi & Ui).
  destruct (occurs_at_inv _ _ _ Oi Li) as [suf E].
  set (pre := firstn i template) in *.
  assert (Lpre : length pre = i)
    by (unfold pre; rewrite length_firstn; lia).
  assert (Z : occurrences MARKER pre = O).
  { apply (occurrences_zero_middle MARKER [] pre (MARKER ++ suf));
      [exact MARKER_nonempty|].
    change ([] ++ pre ++ MARKER ++ suf) with (pre ++ MARKER ++ suf).
    rewrite <- E, MARKER_length.
    intros x Ox Bx. change (length (@nil char) + x)%nat with x in Ox.
    apply Ui in Ox; lia. }
  clearbody pre. subst template. rewrite (inject_first _ _ _ Z). split.
  - now apply inject_once_marker_free.
  - now apply inject_once_assignment_once.
Qed.

Lemma inject_once_witness :
  let template := lit "<script>" ++ MARKER ++ lit "</script>" in
  let d := [(lit "alice.txt", lit "Hello")] in
  (occurrences MARKER template = 1%nat
   /\ d <> []
   /\ (forall k v, In (k, v) d ->
                   occurrences MARKER k = O /\ occurrences MARKER v = O)
   /\ occurrences (assignment (json_dumps d)) template = O)
  /\ occurrences MARKER (inject template (json_dumps d)) = O
  /\ occurrences (assignment (json_dumps d))
                 (inject template (json_dumps d)) = 1%nat.
Proof.
  cbv zeta.
  assert (H1 : occurrences MARKER (lit "<script>" ++ MARKER ++ lit "</script>")
               = 1%nat) by (vm_compute; reflexivity).
  assert (Hd : [(lit "alice.txt", lit "Hello")] <> []) by discriminate.
  assert (Hkv : forall k v, In (k, v) [(lit "alice.txt", lit "Hello")] ->
                  occurrences MARKER k = O /\ occurrences MARKER v = O).
  { intros k v [E|[]]. injection E as <- <-.
    split; vm_compute; reflexivity. }
  assert (H3 : occurrences
                 (assignment (json_dumps [(lit "alice.txt", lit "Hello")]))
                 (lit "<script>" ++ MARKER ++ lit "</script>") = O)
    by (vm_compute; reflexivity).
  split; [repeat (split; [assumption|]); assumption|].
  apply inject_once; assumption.
Defined.

(** The claim as written fails in two ways. An empty dataset
    serializes to [{}], so the assignment is the marker itself and the
    marker is still there after the injection; and a template that
    already holds the assignment behind its one marker ends up with two
    occurrences of the assignment. *)
Lemma inject_once_fails :
  let template := lit "<script>" ++ MARKER ++ lit "</script>" in
  let d := [(lit "alice.txt", lit "Hello")] in
  let template' := MARKER ++ assignment (json_dumps d) in
  (occurrences MARKER template = 1%nat
   /\ occurrences MARKER (inject template (json_dumps [])) = 1%nat)
  /\ (occurrences MARKER template' = 1%nat
      /\ occurrences (assignment (json_dumps d))
                     (inject template' (json_dumps d)) = 2%nat).
Proof.
  cbv zeta. split; split; vm_compute; reflexivity.
Qed.

(* ================================================================== *)
(** * UTF-8: decoding what was encoded *)
(* ================================================================== *)

Lemma to_N_byte_of_N (n : N) : n <= 255 -> Byte.to_N (byte_of_N n) = n.
Proof.
  intros H. unfold byte_of_N. destruct (Byte.of_N n) as [b|] eqn:E.
  - now apply Byte.to_of_N.
  - apply Byte.of_N_None_iff in E. lia.
Qed.

(** Below the lowest set bit of the lead, [lor] adds. *)
Lemma lor_below (a : N) (n : nat) (x : N) :
  forallb (fun x => N.lor a x =? a + x) (map N.of_nat (seq 0 n)) = true ->
  x < N.of_nat n -> N.lor a x = a + x.
Proof.
  intros A Hx. rewrite forallb_forall in A. apply N.eqb_eq, A.
  apply in_map_iff. exists (N.to_nat x). rewrite N2Nat.id, in_seq.
  split; [reflexivity | lia].
Qed.

Lemma shiftr_6 (c : N) : N.shiftr c 6 = c / 64.
Proof. now rewrite N.shiftr_div_pow2. Qed.

Lemma shiftr_12 (c : N) : N.shiftr c 12 = c / 64 / 64.
Proof. rewrite N.shiftr_div_pow2, N.Div0.div_div. reflexivity. Qed.

Lemma shiftr_18 (c : N) : N.shiftr c 18 = c / 64 / 64 / 64.
Proof. rewrite N.shiftr_div_pow2, !N.Div0.div_div. reflexivity. Qed.

Lemma land_3F (c : N) : N.land c 0x3F = c mod 64.
Proof. change 0x3F with (N.ones 6). now rewrite N.land_ones. Qed.

Lemma shiftl_mul (a n : N) : N.shiftl a n = a * 2 ^ n.
Proof. apply N.shiftl_mul_pow2. Qed.

Ltac split_64 c :=
  pose proof (N.div_mod c 64 ltac:(discriminate));
  pose proof (N.mod_lt c 64 ltac:(discriminate));
  pose proof (N.le_0_l (c mod 64));
  pose proof (N.le_0_l (c / 64)).

Ltac decide_tests :=
  repeat match goal with
         | |- context [?a <? ?b] =>
             destruct (N.ltb_spec a b); try (exfalso; lia)
         | |- context [?a <=? ?b] =>
             destruct (N.leb_spec a b); try (exfalso; lia)
         | |- context [?a =? ?b] =>
             destruct (N.eqb_spec a b); try (exfalso; lia)
         end.

Lemma Some_eq {A : Type} (a b : A) : Some a = Some b -> a = b.
Proof. congruence. Qed.

(** The decoder reads an encoded character back and goes on behind
    it. *)
Lemma utf8_scan_encode_char (c : char) (bs rest : bytes) :
  utf8_encode_char c = Some bs ->
  utf8_scan (bs ++ rest) = Some c :: utf8_scan rest.
Proof.
  unfold utf8_encode_char. unfold char in c.
  destruct (N.ltb_spec c 0x80) as [L1|L1].
  { intros E. apply Some_eq in E. subst bs. cbn [app utf8_scan].
    rewrite to_N_byte_of_N by lia. now decide_tests. }
  rewrite ?shiftr_6, ?shiftr_12, ?shiftr_18, ?land_3F.
  split_64 c. split_64 (c / 64). split_64 (c / 64 / 64).
  destruct (N.ltb_spec c 0x800) as [L2|L2].
  { rewrite (lor_below 0xC0 32), (lor_below 0x80 64)
      by (reflexivity || (change (N.of_nat 32) with 32;
                          change (N.of_nat 64) with 64; lia)).
    intros E. apply Some_eq in E. subst bs. cbn [app utf8_scan].
    rewrite !to_N_byte_of_N by lia.
    unfold continuation. decide_tests. cbn [andb].
    rewrite !shiftl_mul. do 2 f_equal. cbn [N.pow Pos.pow]. lia. }
  destruct ((0xD800 <=? c) && (c <? 0xE000)) eqn:S; [discriminate|].
  apply andb_false_iff in S.
  assert (Sur : c < 0xD800 \/ 0xE000 <= c).
  { destruct S as [S|S]; [apply N.leb_gt in S | apply N.ltb_ge in S]; lia. }
  clear S.
  destruct (N.ltb_spec c 0x10000) as [L3|L3].
  { rewrite (lor_below 0xE0 16), !(lor_below 0x80 64)
      by (reflexivity || (change (N.of_nat 16) with 16;
                          change (N.of_nat 64) with 64; lia)).
    intros E. apply Some_eq in E. subst bs. cbn [app utf8_scan].
    rewrite !to_N_byte_of_N by lia.
    unfold continuation. decide_tests; cbn [andb orb negb];
      try (exfalso; lia).
    all: rewrite !shiftl_mul; do 2 f_equal; cbn [N.pow Pos.pow]; lia. }
  destruct (N.ltb_spec c 0x110000) as [L4|L4]; [|discriminate].
  rewrite (lor_below 0xF0 8), !(lor_below 0x80 64)
    by (reflexivity || (change (N.of_nat 8) with 8;
                        change (N.of_nat 64) with 64; lia)).
  intros E. apply Some_eq in E. subst bs. cbn [app utf8_scan].
  rewrite !to_N_byte_of_N by lia.
  unfold continuation. decide_tests; cbn [andb orb negb];
    try (exfalso; lia).
  all: rewrite !shiftl_mul; do 2 f_equal; cbn [N.pow Pos.pow]; lia.
Qed.

Lemma utf8_scan_encode (s : str) (bs : bytes) :
  utf8_encode s = Some bs -> utf8_scan bs = map Some s.
Proof.
  revert bs; induction s as [|c s IH]; intros bs; simpl.
  - now intros [= <-].
  - destruct (utf8_encode_char c) as [b|] eqn:Ec; [|discriminate].
    destruct (utf8_encode s) as [bs'|]; [|discriminate].
    intros [= <-]. rewrite (utf8_scan_encode_char _ _ _ Ec).
    now rewrite (IH _ eq_refl).
Qed.

(** Text that can be encoded decodes to itself under either error
    handler. *)
Lemma utf8_decode_encode (s : str) (bs : bytes) (h : errors) :
  utf8_encode s = Some bs -> utf8_decode h bs = Ok s.
Proof.
  intros E. unfold utf8_decode. rewrite (utf8_scan_encode _ _ E).
  assert (D : decoded (map Some s) = s)
    by (clear; induction s as [|c s' IH']; simpl; [|rewrite IH'];
        reflexivity).
  assert (F : forallb is_decoded (map Some s) = true)
    by (clear; induction s; simpl; auto).
  destruct h; rewrite ?F, D; reflexivity.
Qed.

(* ================================================================== *)
(** * The whole run *)
(* ================================================================== *)

Lemma replace_same (s old : str) : old <> [] -> replace s old old 1 = s.
Proof.
  intros Ho. destruct (find s old) as [i|] eqn:F.
  - rewrite (replace_once _ _ _ _ Ho F).
    destruct (find_some _ _ _ F) as (Oi & Li & _).
    destruct (startswith_inv _ _ Oi) as [v E].
    rewrite Nat.add_comm, <- skipn_skipn, E.
    rewrite skipn_app, skipn_all, Nat.sub_diag. simpl.
    rewrite <- E. apply firstn_skipn.
  - now apply replace_absent.
Qed.

(** With no conversation at all the data is [{}], the assignment is
    the marker itself, and every template comes back as it was. *)
Theorem inject_empty_dataset (template : str) :
  json_dumps [] = lit "{}" /\ inject template (json_dumps []) = template.
Proof.
  split; [reflexivity|]. unfold inject.
  change (assignment (json_dumps [])) with MARKER.
  apply replace_same. exact MARKER_nonempty.
Qed.

Lemma dataset_keys (files : list entry) (acc : dict) :
  NoDup (keys acc ++ map name files) ->
  keys (dataset files acc) =
  keys acc
  ++ map name
       (filter (fun f => match read (snd f) Ignore with
                         | Ok _ => true
                         | Raised _ => false
                         end) files).
Proof.
  revert acc; induction files as [|f files IH]; intros acc ND; simpl.
  - now rewrite app_nil_r.
  - destruct (read (snd f) Ignore) as [content|e].
    + assert (Hk : ~ In (name f) (keys acc)).
      { apply NoDup_remove_2 in ND. intros Hin. apply ND.
        apply in_or_app. now left. }
      rewrite IH.
      * rewrite dict_set_fresh by exact Hk. unfold keys.
        rewrite map_app. simpl. now rewrite <- app_assoc.
      * rewrite dict_set_fresh by exact Hk. unfold keys in *.
        rewrite map_app. simpl. now rewrite <- app_assoc.
    + apply IH. now apply NoDup_remove_1 in ND.
Qed.

(** The keys of the dataset are the names of the discovered files that
    could be read, in the order of the directory listing. *)
Theorem dataset_keys_in_listing_order (listing : list entry) (w : World) :
  NoDup (map name listing) ->
  exists message_data w',
    load_files (discover listing) [] w = (Ok message_data, w')
    /\ keys message_data =
       map name
         (filter (fun f => match read (snd f) Ignore with
                           | Ok _ => true
                           | Raised _ => false
                           end) (discover listing)).
Proof.
  intros ND. eexists; eexists. split; [apply load_files_run|].
  apply (dataset_keys (discover listing) []). simpl.
  now apply NoDup_discover.
Qed.

Lemma dataset_keys_in_listing_order_witness :
  let listing := [(lit "zoe.txt", File [x68; x69]);
                  (lit "notes.md", File [x6f]);
                  (lit "bob.txt", NoAccess (OSError (lit "denied")));
                  (lit "al.txt", File [])] in
  let w := mkWorld listing no_template no_output (lit "viewer.html") [] in
  NoDup (map name listing)
  /\ exists message_data w',
    load_files (discover listing) [] w = (Ok message_data, w')
    /\ keys message_data =
       map name
         (filter (fun f => match read (snd f) Ignore with
                           | Ok _ => true
                           | Raised _ => false
                           end) (discover listing)).
Proof.
  cbv zeta.
  assert (ND : NoDup (map name
            [(lit "zoe.txt", File [x68; x69]);
             (lit "notes.md", File [x6f]);
             (lit "bob.txt", NoAccess (OSError (lit "denied")));
             (lit "al.txt", File [])])).
  { repeat constructor; simpl; intuition discriminate. }
  split; [exact ND|]. apply dataset_keys_in_listing_order. exact ND.
Defined.

(* ================================================================== *)
(** * The outcomes of a run *)
(* ================================================================== *)

Lemma dataset_length (files : list entry) :
  NoDup (map name files) ->
  length (dataset files []) = length (filter readable files).
Proof.
  intros ND. rewrite <- (length_map fst (dataset files [])).
  change (map fst (dataset files [])) with (keys (dataset files [])).
  rewrite (dataset_keys files []) by exact ND. simpl. now rewrite length_map.
Qed.

(** What [bundle] does, by the three things that can go wrong. *)
Lemma bundle_run (message_data : dict) (w : World) :
  bundle message_data w =
  match read (viewer_template_html w) Strict with
  | Raised e => (Raised e, w)
  | Ok template =>
      match viewer_html_file w with
      | NoAccess e => (Raised e, w)
      | _ =>
          match utf8_encode (inject template (json_dumps message_data)) with
          | None => (Raised UnicodeEncodeError,
                     set_viewer_html_file w (File []))
          | Some data =>
              (Ok tt,
               set_stdout (set_viewer_html_file w (File data))
                 (stdout w
                  ++ summary_lines (length message_data)
                                   (viewer_html_path w)))
          end
      end
  end.
Proof.
  unfold bundle, bind, viewer_template_path, open_read, open_write, print,
    output_path.
  cbn [fst snd]. destruct (read (viewer_template_html w) Strict) as [t|e];
    [|reflexivity].
  destruct (viewer_html_file w) as [|e|old] eqn:V; [|reflexivity|];
    destruct (utf8_encode (inject t (json_dumps message_data)));
    try reflexivity;
    unfold set_stdout, set_viewer_html_file, summary_lines; cbn;
    rewrite <- !app_assoc; reflexivity.
Qed.

(** [main] by its outcomes: the progress report is printed in every
    case, and the rest is [bundle]. *)
Lemma main_cases (w : World) :
  let files := discover (messages w) in
  let report := stdout w ++ found_line (length files) :: map load_line files in
  main w =
  match read (viewer_template_html w) Strict with
  | Raised e => (Raised e, set_stdout w report)
  | Ok template =>
      match viewer_html_file w with
      | NoAccess e => (Raised e, set_stdout w report)
      | _ =>
          match utf8_encode (inject template (json_dumps (dataset files [])))
          with
          | None => (Raised UnicodeEncodeError,
                     set_viewer_html_file (set_stdout w report) (File []))
          | Some data =>
              (Ok tt,
               mkWorld (messages w) (viewer_template_html w) (File data)
                       (viewer_html_path w)
                       (report
                        ++ summary_lines (length (dataset files []))
                                         (viewer_html_path w)))
          end
      end
  end.
Proof.
  cbv zeta. rewrite main_run, bundle_run. unfold found_line.
  cbn [viewer_template_html viewer_html_file viewer_html_path stdout
       set_stdout].
  destruct (read (viewer_template_html w) Strict) as [t|e]; [|reflexivity].
  destruct (viewer_html_file w) as [|e|old]; try reflexivity;
    destruct (utf8_encode _); reflexivity.
Qed.

(** A run that succeeds prints the count of the files found, one line
    for each of them in the order of the listing, and the summary with
    the number of files that could be read. *)
Lemma main_stdout_success (w : World) :
  NoDup (map name (messages w)) ->
  fst (main w) = Ok tt ->
  stdout (snd (main w)) =
  stdout w
  ++ found_line (length (discover (messages w)))
  :: map load_line (discover (messages w))
  ++ summary_lines (length (filter readable (discover (messages w))))
                   (viewer_html_path w).
Proof.
  intros ND. rewrite main_cases. cbv zeta.
  rewrite (dataset_length _ (NoDup_discover _ ND)).
  destruct (read (viewer_template_html w) Strict) as [t|e];
    [|discriminate].
  destruct (viewer_html_file w) as [|e|old]; try discriminate;
    destruct (utf8_encode _); try discriminate; intros _;
    cbn [snd stdout]; now rewrite <- app_assoc.
Qed.

(** A run that raises has printed the progress report and nothing
    else: the summary never follows a failure. The failure is that of
    reading the template, of opening the output file, or of encoding the
    document. *)
Lemma main_stdout_failure (w : World) (e : exn) :
  fst (main w) = Raised e ->
  stdout (snd (main w)) =
    stdout w
    ++ found_line (length (discover (messages w)))
    :: map load_line (discover (messages w))
  /\ (read (viewer_template_html w) Strict = Raised e
      \/ viewer_html_file w = NoAccess e
      \/ (e = UnicodeEncodeError
          /\ exists template,
               read (viewer_template_html w) Strict = Ok template
               /\ utf8_encode
                    (inject template
                       (json_dumps (dataset (discover (messages w)) [])))
                  = None)).
Proof.
  rewrite main_cases. cbv zeta.
  destruct (read (viewer_template_html w) Strict) as [t|e0].
  - destruct (viewer_html_file w) as [|e0|old];
      try (destruct (utf8_encode _) eqn:E; [discriminate|];
           intros [= <-]; split; [reflexivity|]; right; right;
           split; [reflexivity|]; exists t; now split).
    intros [= <-]. split; [reflexivity|]. right. now left.
  - intros [= <-]. split; [reflexivity|]. now left.
Qed.

(* ================================================================== *)
(** * What the decoder yields *)
(* ================================================================== *)

Lemma scalar_intro (c : char) :
  c < 0xD800 \/ (0xE000 <= c /\ c < 0x110000) -> scalar c = true.
Proof.
  unfold scalar, char in *. intros [H|[H1 H2]].
  - apply N.ltb_lt in H. now rewrite H.
  - apply N.leb_le in H1. apply N.ltb_lt in H2. rewrite H1, H2.
    apply orb_true_r.
Qed.

Lemma continuation_range (ch : N) :
  continuation ch = true -> 0x80 <= ch /\ ch < 0xC0.
Proof.
  unfold continuation. intros H. apply andb_true_iff in H as [A B].
  apply N.leb_le in A. apply N.ltb_lt in B. now split.
Qed.

Lemma utf8_scan_sound (n : nat) (s : bytes) :
  (length s <= n)%nat ->
  Forall item_ok (utf8_scan s) /\ (length (utf8_scan s) <= length s)%nat.
Proof.
  revert s; induction n as [|n IH]; intros s Hn.
  { destruct s; [|simpl in Hn; lia]. split; [constructor|reflexivity]. }
  destruct s as [|b1 s1]; [split; [constructor|reflexivity]|].
  cbn [length] in Hn.
  assert (T1 : Forall item_ok (utf8_scan s1)
               /\ (length (utf8_scan s1) <= length s1)%nat)
    by (apply IH; lia).
  assert (Nil : Forall item_ok [@None char]) by (repeat constructor).
  pose proof (Byte.to_N_bounded b1) as B1.
  cbn [utf8_scan].
  destruct (N.ltb_spec (Byte.to_N b1) 0x80).
  { split; [constructor; [apply scalar_intro; unfold char; lia|apply T1]
           |cbn [length]; lia]. }
  destruct (N.ltb_spec (Byte.to_N b1) 0xC2).
  { split; [constructor; [exact I|apply T1]|cbn [length]; lia]. }
  destruct (N.ltb_spec (Byte.to_N b1) 0xE0).
  { destruct s1 as [|b2 s2]; [split; [exact Nil|cbn [length]; lia]|].
    cbn [length] in *.
    assert (T2 : Forall item_ok (utf8_scan s2)
                 /\ (length (utf8_scan s2) <= length s2)%nat)
      by (apply IH; lia).
    destruct (continuation (Byte.to_N b2)) eqn:C2.
    - apply continuation_range in C2.
      split; [constructor; [|apply T2]|cbn [length]; lia].
      apply scalar_intro. rewrite !shiftl_mul. cbn [N.pow Pos.pow Pos.mul].
      unfold char. lia.
    - split; [constructor; [exact I|apply T1]|cbn [length]; lia]. }
  destruct (N.ltb_spec (Byte.to_N b1) 0xF0).
  { destruct s1 as [|b2 s2]; [split; [exact Nil|cbn [length]; lia]|].
    cbn [length] in *.
    assert (T2 : Forall item_ok (utf8_scan s2)
                 /\ (length (utf8_scan s2) <= length s2)%nat)
      by (apply IH; lia).
    destruct (continuation (Byte.to_N b2)) eqn:C2; cbn [negb orb];
      [|split; [constructor; [exact I|apply T1]|cbn [length]; lia]].
    apply continuation_range in C2.
    destruct (if Byte.to_N b2 <? 0xA0 then Byte.to_N b1 =? 0xE0
              else Byte.to_N b1 =? 0xED) eqn:R;
      [split; [constructor; [exact I|apply T1]|cbn [length]; lia]|].
    destruct s2 as [|b3 s3]; [split; [exact Nil|cbn [length]; lia]|].
    cbn [length] in *.
    assert (T3 : Forall item_ok (utf8_scan s3)
                 /\ (length (utf8_scan s3) <= length s3)%nat)
      by (apply IH; lia).
    destruct (continuation (Byte.to_N b3)) eqn:C3;
      [|split; [constructor; [exact I|apply T2]|cbn [length]; lia]].
    apply continuation_range in C3.
    split; [constructor; [|apply T3]|cbn [length]; lia].
    apply scalar_intro. rewrite !shiftl_mul. cbn [N.pow Pos.pow Pos.mul].
    unfold char.
    destruct (N.ltb_spec (Byte.to_N b2) 0xA0);
      [apply N.eqb_neq in R|apply N.eqb_neq in R]; lia. }
  destruct (N.ltb_spec (Byte.to_N b1) 0xF5);
    [|split; [constructor; [exact I|apply T1]|cbn [length]; lia]].
  destruct s1 as [|b2 s2]; [split; [exact Nil|cbn [length]; lia]|].
  cbn [length] in *.
  assert (T2 : Forall item_ok (utf8_scan s2)
               /\ (length (utf8_scan s2) <= length s2)%nat)
    by (apply IH; lia).
  destruct (continuation (Byte.to_N b2)) eqn:C2; cbn [negb orb];
    [|split; [constructor; [exact I|apply T1]|cbn [length]; lia]].
  apply continuation_range in C2.
  destruct (if Byte.to_N b2 <? 0x90 then Byte.to_N b1 =? 0xF0
            else Byte.to_N b1 =? 0xF4) eqn:R;
    [split; [constructor; [exact I|apply T1]|cbn [length]; lia]|].
  destruct s2 as [|b3 s3]; [split; [exact Nil|cbn [length]; lia]|].
  cbn [length] in *.
  assert (T3 : Forall item_ok (utf8_scan s3)
               /\ (length (utf8_scan s3) <= length s3)%nat)
    by (apply IH; lia).
  destruct (continuation (Byte.to_N b3)) eqn:C3; cbn [negb];
    [|split; [constructor; [exact I|apply T2]|cbn [length]; lia]].
  apply continuation_range in C3.
  destruct s3 as [|b4 s4]; [split; [exact Nil|cbn [length]; lia]|].
  cbn [length] in *.
  assert (T4 : Forall item_ok (utf8_scan s4)
               /\ (length (utf8_scan s4) <= length s4)%nat)
    by (apply IH; lia).
  destruct (continuation (Byte.to_N b4)) eqn:C4;
    [|split; [constructor; [exact I|apply T3]|cbn [length]; lia]].
  apply continuation_range in C4.
  split; [constructor; [|apply T4]|cbn [length]; lia].
  apply scalar_intro. rewrite !shiftl_mul. cbn [N.pow Pos.pow Pos.mul].
  unfold char.
  destruct (N.ltb_spec (Byte.to_N b2) 0x90);
    [apply N.eqb_neq in R|apply N.eqb_neq in R]; lia.
Qed.

(** ** The characters of the loaded text *)

Lemma universal_newlines_sound (n : nat) (s : str) :
  (length s <= n)%nat ->
  (forall c, In c (universal_newlines s) -> c <> CR /\ (c = LF \/ In c s))
  /\ (length (universal_newlines s) <= length s)%nat.
Proof.
  revert s; induction n as [|n IH]; intros s Hn.
  { destruct s; [|simpl in Hn; lia]. split; [intros c []|reflexivity]. }
  destruct s as [|c0 s1]; [split; [intros c []|reflexivity]|].
  cbn [length] in Hn. cbn [universal_newlines].
  destruct (IH s1 ltac:(lia)) as [I1 L1].
  destruct (N.eqb_spec c0 CR) as [E|E].
  - destruct s1 as [|c1 s2].
    + split; [|reflexivity]. intros c [<-|[]]. split; [discriminate|now left].
    + cbn [length] in *. destruct (IH s2 ltac:(lia)) as [I2 L2].
      destruct (N.eqb_spec c1 LF) as [E1|E1].
      * split; [|cbn [length]; lia].
        intros c [<-|Hc]; [split; [discriminate|now left]|].
        destruct (I2 c Hc) as [A [B|B]]; split; auto.
        right. right. now right.
      * split; [|cbn [length] in *; lia].
        intros c [<-|Hc]; [split; [discriminate|now left]|].
        destruct (I1 c Hc) as [A [B|B]]; split; auto.
        right. now right.
  - split; [|cbn [length]; lia].
    intros c [<-|Hc]; [split; [exact E|right; now left]|].
    destruct (I1 c Hc) as [A [B|B]]; split; auto. right. now right.
Qed.

Lemma decoded_sound (items : list (option char)) :
  (Forall item_ok items -> encodable (decoded items) = true)
  /\ (length (decoded items) <= length items)%nat.
Proof.
  induction items as [|[c|] items [IH L]]; simpl.
  - split; [reflexivity|lia].
  - split; [|lia]. intros F. inversion F as [|? ? Hc Hr]; subst.
    simpl in Hc. rewrite Hc. now apply IH.
  - split; [|lia]. intros F. inversion F; subst. now apply IH.
Qed.

Lemma encodable_iff (s : str) :
  encodable s = true <-> forall c, In c s -> scalar c = true.
Proof. apply forallb_forall. Qed.

Lemma encodable_app (a b : str) :
  encodable (a ++ b) = encodable a && encodable b.
Proof. apply forallb_app. Qed.

Lemma scalar_ascii (c : char) : c < 256 -> scalar c = true.
Proof. intros H. apply scalar_intro. unfold char in *. lia. Qed.

Lemma encodable_lit (s : string) : encodable (lit s) = true.
Proof.
  apply encodable_iff. intros c Hc. unfold lit in Hc.
  apply in_map_iff in Hc as (a & <- & _). apply scalar_ascii.
  apply N_ascii_bounded.
Qed.

(** Whatever a text file holds, what is read from it has no carriage
    return, can be encoded, and is no longer than the file. *)
Lemma read_sound (f : node) (h : errors) (content : str) :
  read f h = Ok content ->
  ~ In CR content /\ encodable content = true
  /\ forall data, f = File data -> (length content <= length data)%nat.
Proof.
  destruct f as [|e|data]; try discriminate. unfold read.
  destruct (utf8_scan_sound (length data) data (le_n _)) as [F L].
  destruct (decoded_sound (utf8_scan data)) as [D Ld]. specialize (D F).
  set (text := decoded (utf8_scan data)) in *.
  destruct (universal_newlines_sound (length text) text (le_n _)) as [U Lu].
  assert (R : utf8_decode h data = Ok text \/ exists e, utf8_decode h data = Raised e).
  { unfold utf8_decode. destruct h; [|now left].
    fold text. destruct (forallb is_decoded (utf8_scan data));
      [now left|right; now eexists]. }
  destruct R as [->|[e ->]]; [|discriminate]. intros [= <-].
  split; [|split].
  - intros Hc. now destruct (U _ Hc).
  - apply encodable_iff. intros c Hc. destruct (U _ Hc) as [_ [->|Hin]].
    + reflexivity.
    + rewrite encodable_iff in D. now apply D.
  - intros data' [= <-]. lia.
Qed.

(* ================================================================== *)
(** * The characters of the serialized data *)
(* ================================================================== *)

(** An escape sequence is printable ASCII; a character that is not
    escaped is no control character. *)
Lemma escape_char_chars (c x : char) :
  In x (escape_char c) -> (x = c /\ 32 <= c) \/ (32 <= x /\ x < 128).
Proof.
  unfold escape_char, hex_digit, BACKSLASH, QUOTE, char in *.
  pose proof (N.mod_lt c 16 ltac:(discriminate)).
  pose proof (N.le_0_l (c mod 16)). pose proof (N.le_0_l (c / 16)).
  assert (c < 32 -> c / 16 < 2)
    by (intros; apply N.Div0.div_lt_upper_bound; lia).
  repeat match goal with
         | |- context [if ?a =? ?b then _ else _] =>
             destruct (N.eqb_spec a b)
         | |- context [if ?a <? ?b then _ else _] =>
             destruct (N.ltb_spec a b)
         end;
    cbn [In lit map list_ascii_of_string ord app];
    intros Hx;
    repeat match goal with
           | H : _ \/ _ |- _ => destruct H
           | H : False |- _ => destruct H
           end;
    subst; try (right; vm_compute; split; [discriminate|reflexivity]);
    try (right; lia); left; split; [reflexivity|lia].
Qed.

Lemma escape_chars (s : str) (x : char) :
  In x (flat_map escape_char s) ->
  (In x s /\ 32 <= x) \/ (32 <= x /\ x < 128).
Proof.
  intros H. apply in_flat_map in H as (c & Hc & Hx).
  destruct (escape_char_chars _ _ Hx) as [[-> L]|R]; [left|right]; auto.
Qed.

Lemma item_tail_chars (kv : str * str) (x : char) :
  In x (item_tail kv) ->
  ((In x (fst kv) \/ In x (snd kv)) /\ 32 <= x) \/ (32 <= x /\ x < 128).
Proof.
  unfold item_tail. intros H.
  apply in_app_or in H as [H|[<-|H]].
  - destruct (escape_chars _ _ H) as [[A B]|R]; [left|right]; auto.
  - right. now vm_compute.
  - apply in_app_or in H as [H|[<-|H]].
    + right. destruct H as [<-|[<-|[]]]; now vm_compute.
    + right. now vm_compute.
    + apply in_app_or in H as [H|[<-|[]]].
      * destruct (escape_chars _ _ H) as [[A B]|R]; [left|right]; auto.
      * right. now vm_compute.
Qed.

Lemma further_items_chars (d : dict) (x : char) :
  In x (further_items d) ->
  x = LF
  \/ ((exists kv, In kv d /\ (In x (fst kv) \/ In x (snd kv))) /\ 32 <= x)
  \/ (32 <= x /\ x < 128).
Proof.
  unfold further_items. intros H.
  apply in_flat_map in H as (kv & Hkv & Hx).
  apply in_app_or in Hx as [Hx|Hx].
  - destruct Hx as [<-|[<-|[<-|[<-|[]]]]]; auto;
      right; right; now vm_compute.
  - rewrite encode_item_tail in Hx. destruct Hx as [<-|Hx].
    + right; right; now vm_compute.
    + destruct (item_tail_chars _ _ Hx) as [[A B]|R]; right; [left|right];
        auto. split; [now exists kv|exact B].
Qed.

(** Every character of the serialized data is a character of a key or
    of a content, printable ASCII, or the line feed of the layout. *)
Lemma json_dumps_chars (d : dict) (x : char) :
  In x (json_dumps d) ->
  x = LF
  \/ ((exists kv, In kv d /\ (In x (fst kv) \/ In x (snd kv))) /\ 32 <= x)
  \/ (32 <= x /\ x < 128).
Proof.
  destruct d as [|kv d].
  - intros [<-|[<-|[]]]; right; right; now vm_compute.
  - rewrite json_dumps_cons.
    intros [<-|[<-|[<-|[<-|[<-|H]]]]]; auto;
      try (right; right; now vm_compute).
    apply in_app_or in H as [H|H].
    + destruct (item_tail_chars _ _ H) as [[A B]|R]; right; [left|right];
        auto. split; [exists kv; split; [now left|exact A]|exact B].
    + apply in_app_or in H as [H|[<-|[<-|[]]]]; auto;
        try (right; right; now vm_compute).
      destruct (further_items_chars _ _ H) as [A|[[(kv' & I & A) B]|R]];
        auto.
      right; left. split; [exists kv'; split; [now right|exact A]|exact B].
Qed.

Lemma item_tail_no_LF (kv : str * str) :
  count_occ N.eq_dec (item_tail kv) LF = O.
Proof.
  apply count_occ_not_In. intros H.
  destruct (item_tail_chars _ _ H) as [[_ B]|[B _]]; now vm_compute in B.
Qed.

Lemma further_items_LF (d : dict) :
  count_occ N.eq_dec (further_items d) LF = length d.
Proof.
  induction d as [|kv d IH]; [reflexivity|].
  change (further_items (kv :: d))
    with ((item_separator ++ encode_item kv) ++ further_items d).
  cbn [length]. rewrite !count_occ_app, encode_item_tail.
  change (count_occ N.eq_dec item_separator LF) with 1%nat.
  rewrite count_occ_cons_neq by discriminate.
  rewrite item_tail_no_LF. unfold dict, str, char in *. lia.
Qed.

(** The serialized data holds no raw control character but the line
    feeds of its layout, and of those one for every entry and one more:
    every entry is on a line of its own. *)
Theorem json_dumps_layout (d : dict) :
  (forall c, In c (json_dumps d) -> c < 32 -> c = LF)
  /\ count_occ N.eq_dec (json_dumps d) LF
     = match d with [] => O | _ :: _ => S (length d) end.
Proof.
  split.
  - intros c Hc L. unfold char in *.
    destruct (json_dumps_chars _ _ Hc) as [E|[[_ B]|[B _]]];
      [exact E | lia | lia].
  - destruct d as [|kv d]; [reflexivity|]. rewrite json_dumps_cons.
    rewrite count_occ_cons_neq by discriminate.
    rewrite count_occ_cons_eq by reflexivity.
    do 3 rewrite count_occ_cons_neq by discriminate.
    rewrite !count_occ_app, item_tail_no_LF, further_items_LF.
    cbn [length]. change (count_occ N.eq_dec [LF; 125] LF) with 1%nat. lia.
Qed.

(** ** Where the entries of the dataset come from *)

Lemma dict_set_in (d : dict) (k v : str) (kv : str * str) :
  In kv (dict_set d k v) -> kv = (k, v) \/ In kv d.
Proof.
  induction d as [|[k0 v0] d IH]; simpl.
  - intros [<-|[]]. now left.
  - destruct (str_eqb k0 k) eqn:E.
    + apply str_eqb_eq in E. subst k0. intros [<-|H]; auto.
    + intros [<-|H]; auto. destruct (IH H); auto.
Qed.

Lemma dataset_in (files : list entry) (acc : dict) (kv : str * str) :
  In kv (dataset files acc) ->
  In kv acc
  \/ exists f, In f files /\ name f = fst kv
               /\ read (snd f) Ignore = Ok (snd kv).
Proof.
  revert acc; induction files as [|f files IH]; intros acc; simpl; auto.
  destruct (read (snd f) Ignore) as [content|e] eqn:R; intros H.
  - destruct (IH _ H) as [A|(g & Hg & A)].
    + destruct (dict_set_in _ _ _ _ A) as [->|B]; auto.
      right. exists f. simpl. auto.
    + right. exists g. auto.
  - destruct (IH _ H) as [A|(g & Hg & A)]; auto.
    right. exists g. auto.
Qed.

(** Every entry of the dataset is a conversation file of the
    directory with what was read from it: its key is the name of a file
    that ends in [.txt] and is not [orphaned.txt], and its content is
    the text read from that file. Nothing else gets into the dataset,
    whatever the directory holds. *)
Theorem dataset_entries_are_files
        (listing : list entry) (w w' : World) (message_data : dict)
        (k v : str) :
  load_files (discover listing) [] w = (Ok message_data, w') ->
  In (k, v) message_data ->
  (exists f, In f listing /\ name f = k /\ read (snd f) Ignore = Ok v)
  /\ (exists stem, k = stem ++ lit ".txt")
  /\ k <> lit "orphaned.txt".
Proof.
  rewrite load_files_run. intros E Hin.
  apply (f_equal fst) in E. cbn [fst] in E.
  apply (f_equal (fun r => match r with Ok d => d | Raised _ => [] end))
    in E. subst message_data.
  destruct (dataset_in _ _ _ Hin) as [[]|(f & Hf & Hk & Hr)].
  cbn [fst snd] in *. subst k.
  apply in_discover in Hf as (Hl & Hs & Hn).
  split; [now exists f|]. now split.
Qed.

Lemma dataset_entries_are_files_witness :
  let listing := [orphaned; (lit "notes.md", File [x6f]); alice] in
  let w := mkWorld listing no_template no_output (lit "viewer.html") [] in
  exists w',
    (load_files (discover listing) [] w
     = (Ok [(lit "alice.txt", lit "Hello")], w')
     /\ In (lit "alice.txt", lit "Hello") [(lit "alice.txt", lit "Hello")])
    /\ (exists f, In f listing /\ name f = lit "alice.txt"
                  /\ read (snd f) Ignore = Ok (lit "Hello"))
    /\ (exists stem, lit "alice.txt" = stem ++ lit ".txt")
    /\ lit "alice.txt" <> lit "orphaned.txt".
Proof.
  cbv zeta. eexists.
  assert (E : load_files
                (discover [orphaned; (lit "notes.md", File [x6f]); alice]) []
                (mkWorld [orphaned; (lit "notes.md", File [x6f]); alice]
                         no_template no_output (lit "viewer.html") [])
              = (Ok [(lit "alice.txt", lit "Hello")],
                 mkWorld [orphaned; (lit "notes.md", File [x6f]); alice]
                         no_template no_output (lit "viewer.html")
                         [lit "Loaded: alice.txt (5 bytes)"]))
    by (vm_compute; reflexivity).
  split; [split; [exact E | now left]|].
  apply (dataset_entries_are_files _ _ _ _ _ _ E). now left.
Defined.

(** ** What is loaded from a file *)

Lemma universal_newlines_without_CR (s : str) :
  ~ In CR s -> universal_newlines s = s.
Proof.
  induction s as [|c s IH]; [reflexivity|]. intros H.
  cbn [universal_newlines]. destruct (N.eqb_spec c CR) as [E|E].
  - exfalso. apply H. now left.
  - rewrite IH; [reflexivity|]. intros Hin. apply H. now right.
Qed.

(* ================================================================== *)
(** * The document *)
(* ================================================================== *)

(** ** The document can be encoded *)

Lemma utf8_encode_char_scalar (c : char) :
  scalar c = true -> exists b, utf8_encode_char c = Some b.
Proof.
  unfold scalar, utf8_encode_char, char in *. intros H.
  assert (R : c < 0xD800 \/ (0xE000 <= c /\ c < 0x110000)).
  { apply orb_true_iff in H as [H|H]; [left; now apply N.ltb_lt|right].
    apply andb_true_iff in H as [A B]. apply N.leb_le in A.
    apply N.ltb_lt in B. now split. }
  clear H.
  destruct (N.ltb_spec c 0x80); [now eexists|].
  destruct (N.ltb_spec c 0x800); [now eexists|].
  destruct (N.leb_spec 0xD800 c); destruct (N.ltb_spec c 0xE000);
    cbn [andb]; try (exfalso; lia);
    destruct (N.ltb_spec c 0x10000); try (now eexists);
    destruct (N.ltb_spec c 0x110000); try (now eexists); exfalso; lia.
Qed.

Lemma utf8_encode_encodable (s : str) :
  encodable s = true -> exists data, utf8_encode s = Some data.
Proof.
  induction s as [|c s IH]; simpl; [now eexists|]. intros H.
  apply andb_true_iff in H as [Hc Hs].
  destruct (utf8_encode_char_scalar _ Hc) as [b ->].
  destruct (IH Hs) as [bs ->]. now eexists.
Qed.

Lemma encodable_json_dumps (d : dict) :
  (forall kv, In kv d ->
              encodable (fst kv) = true /\ encodable (snd kv) = true) ->
  encodable (json_dumps d) = true.
Proof.
  intros H. apply encodable_iff. intros x Hx.
  destruct (json_dumps_chars _ _ Hx) as [->|[[(kv & Hkv & A) _]|[_ B]]].
  - reflexivity.
  - destruct (H kv Hkv) as [K V]. rewrite encodable_iff in K, V.
    destruct A; auto.
  - apply scalar_ascii. unfold char in *. lia.
Qed.

Lemma In_skipn (c : char) (n : nat) (l : str) :
  In c (skipn n l) -> In c l.
Proof.
  intros H. rewrite <- (firstn_skipn n l). apply in_or_app. now right.
Qed.

(** [inject] gives the template back or puts the assignment in the
    place of the first marker. *)
Lemma inject_cases (template data_json : str) :
  (find template MARKER = None /\ inject template data_json = template)
  \/ exists i,
       find template MARKER = Some i
       /\ inject template data_json =
          firstn i template ++ assignment data_json
          ++ skipn (i + length MARKER) template.
Proof.
  unfold inject. destruct (find template MARKER) as [i|] eqn:F.
  - right. exists i. split; [reflexivity|].
    now apply replace_once; [exact MARKER_nonempty|].
  - left. split; [reflexivity|].
    now apply replace_absent; [exact MARKER_nonempty|].
Qed.

Lemma encodable_inject (template data_json : str) :
  encodable template = true -> encodable data_json = true ->
  encodable (inject template data_json) = true.
Proof.
  intros T J.
  destruct (inject_cases template data_json) as [[_ ->]|(i & _ & ->)];
    [exact T|].
  unfold assignment. rewrite !encodable_app, !encodable_lit, J.
  rewrite encodable_iff in T.
  assert (A : encodable (firstn i template) = true).
  { apply encodable_iff. intros c Hc. apply T. now apply In_firstn in Hc. }
  assert (B : encodable (skipn (i + length MARKER) template) = true).
  { apply encodable_iff. intros c Hc. apply T. now apply In_skipn in Hc. }
  now rewrite A, B.
Qed.

Lemma encodable_document (files : list entry) (template : str) :
  (forall f, In f files -> encodable (name f) = true) ->
  encodable template = true ->
  encodable (inject template (json_dumps (dataset files []))) = true.
Proof.
  intros N T. apply encodable_inject; [exact T|].
  apply encodable_json_dumps. intros kv Hkv.
  destruct (dataset_in _ _ _ Hkv) as [[]|(f & Hf & Hk & Hr)].
  split.
  - rewrite <- Hk. now apply N.
  - now destruct (read_sound _ _ _ Hr) as (_ & E & _).
Qed.



(** ** Running again *)

(** What the output file held before has no part in a run: with the
    same conversation files and the same readable template, and an
    output path that can be opened, two runs end alike and leave the
    same output file. The file is replaced, never extended. *)
Lemma main_output_same (w1 w2 : World) (template : str) :
  messages w1 = messages w2 ->
  viewer_template_html w1 = viewer_template_html w2 ->
  read (viewer_template_html w1) Strict = Ok template ->
  (forall e, viewer_html_file w1 <> NoAccess e) ->
  (forall e, viewer_html_file w2 <> NoAccess e) ->
  fst (main w1) = fst (main w2)
  /\ viewer_html_file (snd (main w1)) = viewer_html_file (snd (main w2)).
Proof.
  intros M T R V1 V2. rewrite !main_cases. cbv zeta.
  rewrite <- M, <- T, R.
  destruct (utf8_encode _) as [data|];
    destruct (viewer_html_file w1) as [|e1|old1];
    try (now destruct (V1 e1));
    destruct (viewer_html_file w2) as [|e2|old2];
    try (now destruct (V2 e2)); split; reflexivity.
Qed.

(** Running [main] a second time, on what the first run left, ends as
    the first run did and leaves the output file as it was after the
    first run. *)
Theorem main_rerun (w : World) :
  fst (main (snd (main w))) = fst (main w)
  /\ viewer_html_file (snd (main (snd (main w))))
     = viewer_html_file (snd (main w)).
Proof.
  destruct (main w) as [r w1] eqn:E. rewrite main_cases in E.
  cbv zeta in E. cbn [fst snd]. revert E.
  destruct (read (viewer_template_html w) Strict) as [t|e] eqn:R.
  - destruct (viewer_html_file w) as [|e|old] eqn:V;
      try destruct (utf8_encode _) as [data|] eqn:U;
      intros [= <- <-]; rewrite main_cases; cbv zeta;
      cbn [messages viewer_template_html viewer_html_file set_stdout
           set_viewer_html_file];
      rewrite R, ?V, ?U;
      split; cbn [fst snd viewer_html_file set_stdout set_viewer_html_file];
      rewrite ?V; reflexivity.
  - intros [= <- <-]. rewrite main_cases. cbv zeta.
    cbn [messages viewer_template_html viewer_html_file set_stdout].
    rewrite R. split; reflexivity.
Qed.

(** ** The contents in the document *)

Lemma flat_map_item {A : Type} (f : A -> str) (l : list A) (x : A) :
  In x l -> exists a b, flat_map f l = a ++ f x ++ b.
Proof.
  induction l as [|y l IH]; [intros []|]. intros [->|H]; cbn [flat_map].
  - exists [], (flat_map f l). reflexivity.
  - destruct (IH H) as (a & b & ->). exists (f y ++ a), b.
    now rewrite <- app_assoc.
Qed.

Lemma json_dumps_item (d : dict) (kv : str * str) :
  In kv d -> exists a b, json_dumps d = a ++ encode_item kv ++ b.
Proof.
  destruct d as [|kv0 d]; [intros []|]. intros H.
  unfold json_dumps. cbn [map]. rewrite join_cons.
  destruct H as [->|H].
  - exists (lit "{" ++ newline_indent). eexists.
    rewrite <- !app_assoc. reflexivity.
  - apply (in_map encode_item) in H.
    destruct (flat_map_item (fun y => item_separator ++ y) _ _ H)
      as (a & b & ->).
    exists (lit "{" ++ newline_indent ++ encode_item kv0 ++ a
            ++ item_separator). eexists.
    rewrite <- !app_assoc. reflexivity.
Qed.

Lemma escape_plain (s : str) :
  (forall c, In c s -> ~ In c escaped) -> flat_map escape_char s = s.
Proof.
  induction s as [|c s IH]; [reflexivity|]. intros H. cbn [flat_map].
  rewrite escape_char_plain by (apply H; now left).
  rewrite IH; [reflexivity|]. intros x Hx. apply H. now right.
Qed.

Lemma find_present (s sub : str) :
  (1 <= occurrences sub s)%nat -> exists i, find s sub = Some i.
Proof.
  intros H. destruct (find s sub) as [i|] eqn:F; [now exists i|].
  assert (Z : occurrences sub s = O); [|lia].
  apply occurrences_zero. intros i _. now apply find_none.
Qed.

(** A content without control character, quote and backslash is in
    the document as it is, between two quotes: nothing else is escaped,
    neither for HTML nor for the script the data is put in. *)
Theorem content_embedded_verbatim (template : str) (d : dict) (k v : str) :
  (1 <= occurrences MARKER template)%nat ->
  In (k, v) d ->
  (forall c, In c v -> ~ In c escaped) ->
  exists a b,
    inject template (json_dumps d) = a ++ QUOTE :: v ++ QUOTE :: b.
Proof.
  intros Hm Hin Hp. destruct (find_present _ _ Hm) as [i F].
  destruct (inject_cases template (json_dumps d))
    as [[F' _]|(j & _ & ->)]; [congruence|].
  destruct (json_dumps_item _ _ Hin) as (a & b & ->).
  unfold assignment, encode_item, encode_basestring. cbn [fst snd].
  rewrite (escape_plain v Hp).
  exists (firstn j template ++ lit "window.IMESSAGE_DATA = " ++ a
          ++ QUOTE :: flat_map escape_char k ++ QUOTE :: key_separator),
         (b ++ lit ";" ++ skipn (j + length MARKER) template).
  repeat (rewrite <- app_assoc; cbn [app]). reflexivity.
Qed.

Lemma content_embedded_verbatim_witness :
  let template := lit "<script>window.IMESSAGE_DATA = {};</script>" in
  let k := lit "a.txt" in
  let v := lit "</script><b>" in
  ((1 <= occurrences MARKER template)%nat
   /\ In (k, v) [(k, v)]
   /\ (forall c, In c v -> ~ In c escaped))
  /\ exists a b,
       inject template (json_dumps [(k, v)]) = a ++ QUOTE :: v ++ QUOTE :: b.
Proof.
  cbv zeta.
  assert (Hm : (1 <= occurrences MARKER
                       (lit "<script>window.IMESSAGE_DATA = {};</script>"))%nat)
    by (vm_compute; lia).
  assert (Hp : forall c, In c (lit "</script><b>") -> ~ In c escaped).
  { intros c Hc Hesc. apply in_escaped in Hesc. vm_compute in Hc.
    repeat (destruct Hc as [<-|Hc];
            [destruct Hesc as [L|[E|E]];
             [vm_compute in L; discriminate | discriminate | discriminate]|]).
    destruct Hc. }
  split; [split; [exact Hm | split; [now left | exact Hp]]|].
  apply (content_embedded_verbatim _ [(lit "a.txt", lit "</script><b>")]
                                   (lit "a.txt"));
    [exact Hm | now left | exact Hp].
Defined.

(** ** From the directory to the document and back *)

Lemma dataset_distinct (files : list entry) :
  NoDup (map name files) -> NoDup (keys (dataset files [])).
Proof.
  intros ND. rewrite (dataset_keys files []) by exact ND.
  now apply distinct_names_filter.
Qed.



(** ** Characters and bytes *)

Lemma utf8_encode_char_length (c : char) (b : bytes) :
  utf8_encode_char c = Some b ->
  (1 <= length b)%nat /\ (non_ascii c = true -> (2 <= length b)%nat).
Proof.
  unfold utf8_encode_char, non_ascii, char in *.
  destruct (N.ltb_spec c 0x80).
  { intros [= <-]. split; [cbn [length]; lia|]. intros L. apply N.leb_le in L. lia. }
  destruct (c <? 0x800); [intros [= <-]; cbn [length]; split; lia|].
  destruct ((0xD800 <=? c) && (c <? 0xE000)); [discriminate|].
  destruct (c <? 0x10000); [intros [= <-]; cbn [length]; split; lia|].
  destruct (c <? 0x110000); [intros [= <-]; cbn [length]; split; lia|discriminate].
Qed.

Lemma utf8_encode_length (s : str) (data : bytes) :
  utf8_encode s = Some data ->
  (length s <= length data)%nat
  /\ (existsb non_ascii s = true -> (length s < length data)%nat).
Proof.
  revert data; induction s as [|c s IH]; intros data; simpl.
  - intros [= <-]. split; [reflexivity|discriminate].
  - destruct (utf8_encode_char c) as [b|] eqn:Ec; [|discriminate].
    destruct (utf8_encode s) as [bs|]; [|discriminate].
    intros [= <-]. rewrite length_app.
    destruct (utf8_encode_char_length _ _ Ec) as [L1 L2].
    destruct (IH _ eq_refl) as [M1 M2]. split; [lia|].
    intros H. apply orb_true_iff in H as [H|H].
    + specialize (L2 H). lia.
    + specialize (M2 H). lia.
Qed.

(** ** Line ends *)

Lemma inject_chars (template data_json : str) (c : char) :
  In c (inject template data_json) ->
  In c template \/ In c data_json \/ (32 <= c /\ c < 128).
Proof.
  destruct (inject_cases template data_json) as [[_ ->]|(i & _ & ->)];
    [now left|].
  intros H. apply in_app_or in H as [H|H];
    [left; now apply In_firstn in H|].
  apply in_app_or in H as [H|H]; [|left; now apply In_skipn in H].
  unfold assignment in H. apply in_app_or in H as [H|H].
  - right; right. vm_compute in H.
    repeat (destruct H as [<-|H]; [now vm_compute|]). destruct H.
  - apply in_app_or in H as [H|[<-|[]]]; [right; now left|].
    right; right. now vm_compute.
Qed.

(** The document has no carriage return when the names of the
    conversation files have none: the line ends of the template and of
    the conversations all come out as [\n]. *)
Theorem main_output_without_CR (w : World) :
  (forall f, In f (discover (messages w)) -> ~ In CR (name f)) ->
  fst (main w) = Ok tt ->
  exists data document,
    viewer_html_file (snd (main w)) = File data
    /\ utf8_decode Strict data = Ok document
    /\ ~ In CR document.
Proof.
  intros N. rewrite main_cases. cbv zeta.
  destruct (read (viewer_template_html w) Strict) as [t|e] eqn:T;
    [|discriminate].
  destruct (read_sound _ _ _ T) as (Tc & _ & _).
  assert (D : forall data,
             utf8_encode
               (inject t (json_dumps (dataset (discover (messages w)) [])))
             = Some data ->
             exists document,
               utf8_decode Strict data = Ok document /\ ~ In CR document).
  { intros data U. eexists. split; [apply (utf8_decode_encode _ _ _ U)|].
    intros H. apply inject_chars in H as [H|[H|[H _]]];
      [now apply Tc | | now vm_compute in H].
    apply json_dumps_chars in H as [H|[[(kv & Hkv & H) _]|[H _]]];
      [discriminate | | now vm_compute in H].
    destruct (dataset_in _ _ _ Hkv) as [[]|(f & Hf & Hk & Hr)].
    destruct H as [H|H].
    - rewrite <- Hk in H. now apply (N f Hf).
    - now destruct (read_sound _ _ _ Hr) as (C & _ & _). }
  destruct (viewer_html_file w) as [|e|old]; try discriminate;
    destruct (utf8_encode _) as [data|] eqn:U; try discriminate; intros _;
    exists data; destruct (D data eq_refl) as (doc & A & B); exists doc;
    auto.
Qed.

Lemma main_output_without_CR_witness :
  let w := mkWorld [(lit "zoe.txt", File [x68; x0d; x0a; x69; x0d])]
                   (File [x3c; x70; x3e; x0d; x0a; x77; x69; x6e; x64; x6f;
                          x77; x2e; x49; x4d; x45; x53; x53; x41; x47; x45;
                          x5f; x44; x41; x54; x41; x20; x3d; x20; x7b; x7d;
                          x3b; x0d])
                   no_output (lit "viewer.html") [] in
  ((forall f, In f (discover (messages w)) -> ~ In CR (name f))
   /\ fst (main w) = Ok tt)
  /\ exists data document,
    viewer_html_file (snd (main w)) = File data
    /\ utf8_decode Strict data = Ok document
    /\ ~ In CR document.
Proof.
  cbv zeta.
  set (w := mkWorld [(lit "zoe.txt", File [x68; x0d; x0a; x69; x0d])]
                    (File [x3c; x70; x3e; x0d; x0a; x77; x69; x6e; x64; x6f;
                           x77; x2e; x49; x4d; x45; x53; x53; x41; x47; x45;
                           x5f; x44; x41; x54; x41; x20; x3d; x20; x7b; x7d;
                           x3b; x0d])
                    no_output (lit "viewer.html") []).
  assert (N : forall f, In f (discover (messages w)) -> ~ In CR (name f)).
  { intros f Hf. vm_compute in Hf. destruct Hf as [<-|[]].
    vm_compute. intuition discriminate. }
  assert (R : fst (main w) = Ok tt) by (vm_compute; reflexivity).
  split; [split; [exact N | exact R]|].
  exact (main_output_without_CR w N R).
Defined.

(* ================================================================== *)
(** * The strict standard output *)
(* ================================================================== *)

Lemma print_strict_encodable (line : str) (w : World) :
  encodable line = true -> print_strict line w = print line w.
Proof. intros H. unfold print_strict. now rewrite H. Qed.

Lemma print_strict_unencodable (line : str) (w : World) :
  encodable line = false -> print_strict line w = (Raised UnicodeEncodeError, w).
Proof. intros H. unfold print_strict. now rewrite H. Qed.

Lemma encodable_str_of_nat (n : nat) : encodable (str_of_nat n) = true.
Proof. apply encodable_lit. Qed.

Lemma encodable_loaded_line (txt_file : entry) (content : str) :
  encodable (loaded_line txt_file content) = encodable (name txt_file).
Proof.
  unfold loaded_line.
  rewrite !encodable_app, !encodable_lit, encodable_str_of_nat.
  cbn [andb]. now rewrite !andb_true_r.
Qed.

Lemma encodable_error_line (txt_file : entry) (e : exn) :
  encodable (error_line txt_file e)
  = encodable (name txt_file) && encodable (exn_str e).
Proof.
  unfold error_line. rewrite !encodable_app, !encodable_lit. reflexivity.
Qed.

(** On a file whose line can be printed the two standard outputs do
    the same. *)
Lemma load_strict_printable (message_data : dict) (txt_file : entry)
      (w : World) :
  printable txt_file = true ->
  load_strict message_data txt_file w = load message_data txt_file w.
Proof.
  unfold printable, load_strict, load, try_except, bind, open_read.
  intros H. apply andb_true_iff in H as [N E].
  destruct (read (snd txt_file) Ignore) as [content|e].
  - rewrite print_strict_encodable
      by (now rewrite encodable_loaded_line).
    reflexivity.
  - rewrite print_strict_encodable
      by (now rewrite encodable_error_line, N, E).
    reflexivity.
Qed.

Lemma load_files_strict_printable (files : list entry) (message_data : dict)
      (w : World) :
  (forall f, In f files -> printable f = true) ->
  load_files_strict files message_data w = load_files files message_data w.
Proof.
  revert message_data w; induction files as [|f files IH];
    intros message_data w H; [reflexivity|].
  cbn [load_files_strict load_files]. unfold bind.
  rewrite load_strict_printable by (apply H; now left).
  destruct (load message_data f w) as [[d|e] w']; [|reflexivity].
  apply IH. intros g Hg. apply H. now right.
Qed.

(** A file whose name cannot be encoded ends the loop, whether it can
    be read or not: the confirmation cannot be printed, and neither can
    the diagnostic. *)
Lemma load_strict_unprintable (message_data : dict) (txt_file : entry)
      (w : World) :
  encodable (name txt_file) = false ->
  load_strict message_data txt_file w = (Raised UnicodeEncodeError, w).
Proof.
  intros N. unfold load_strict, try_except, bind.
  destruct (read (snd txt_file) Ignore) as [content|e].
  - rewrite print_strict_unencodable
      by (now rewrite encodable_loaded_line).
    rewrite print_strict_unencodable
      by (now rewrite encodable_error_line, N).
    reflexivity.
  - rewrite print_strict_unencodable
      by (now rewrite encodable_error_line, N).
    reflexivity.
Qed.

Lemma bundle_strict_printable (message_data : dict) (w : World) :
  encodable (viewer_html_path w) = true ->
  bundle_strict message_data w = bundle message_data w.
Proof.
  intros P. unfold bundle_strict, bundle, bind, viewer_template_path,
    open_read, output_path.
  destruct (read (viewer_template_html w) Strict) as [t|e]; [|reflexivity].
  destruct (open_write _ w) as [[[]|e] w1] eqn:W; [|reflexivity].
  assert (Pw : viewer_html_path w1 = viewer_html_path w).
  { unfold open_write in W. destruct (viewer_html_file w);
      try discriminate; destruct (utf8_encode _); try discriminate;
      injection W as <-; reflexivity. }
  assert (E1 : encodable ([LF; CHECK_MARK] ++ lit " Generated viewer with "
                          ++ str_of_nat (length message_data)
                          ++ lit " conversations") = true)
    by (rewrite !encodable_app, !encodable_lit, encodable_str_of_nat;
        reflexivity).
  assert (E2 : encodable (CHECK_MARK :: lit " Saved to: "
                          ++ viewer_html_path w1) = true)
    by (cbn [encodable forallb app]; fold (encodable (lit " Saved to: " ++ viewer_html_path w1));
        rewrite encodable_app, encodable_lit, Pw, P; reflexivity).
  assert (E3 : encodable
                 (LF :: lit "Open viewer.html in your browser to view your messages!")
               = true) by (vm_compute; reflexivity).
  unfold print_strict, print. rewrite E1.
  cbn [viewer_html_path set_stdout]. rewrite E2, E3. reflexivity.
Qed.

Lemma main_strict_printable (w : World) :
  (forall f, In f (discover (messages w)) -> printable f = true) ->
  encodable (viewer_html_path w) = true ->
  main_strict w = main w.
Proof.
  intros F P. unfold main_strict, main, bind, glob.
  rewrite print_strict_encodable
    by (rewrite !encodable_app, !encodable_lit, encodable_str_of_nat;
        reflexivity).
  unfold print at 1 2. cbn [fst snd].
  rewrite load_files_strict_printable by exact F.
  destruct (load_files _ _ _) as [[d|e] w1] eqn:L; [|reflexivity].
  apply bundle_strict_printable.
  rewrite load_files_run in L. injection L as _ <-. exact P.
Qed.

Lemma printable_name (f : entry) :
  printable f = true -> encodable (name f) = true.
Proof. unfold printable. intros H. now apply andb_true_iff in H as [N _]. Qed.

Lemma printable_readable (f : entry) (content : str) :
  encodable (name f) = true -> read (snd f) Ignore = Ok content ->
  printable f = true.
Proof. unfold printable. intros -> ->. reflexivity. Qed.

(** What the loop body does on the strict standard output: it raises
    [UnicodeEncodeError] and leaves everything as it was, or it returns
    with one line printed. *)
Lemma load_strict_cases (message_data : dict) (txt_file : entry)
      (w : World) :
  load_strict message_data txt_file w = (Raised UnicodeEncodeError, w)
  \/ exists d line,
       load_strict message_data txt_file w
       = (Ok d, set_stdout w (stdout w ++ [line])).
Proof.
  destruct (encodable (name txt_file)) eqn:N;
    [|left; now apply load_strict_unprintable].
  unfold load_strict, try_except, bind.
  destruct (read (snd txt_file) Ignore) as [content|e].
  - right. rewrite print_strict_encodable
      by (now rewrite encodable_loaded_line).
    eexists; eexists. reflexivity.
  - destruct (encodable (exn_str e)) eqn:E.
    + right. rewrite print_strict_encodable
        by (now rewrite encodable_error_line, N, E).
      eexists; eexists. reflexivity.
    + left. rewrite print_strict_unencodable
        by (now rewrite encodable_error_line, N, E).
      reflexivity.
Qed.

Lemma load_files_strict_unprintable (files : list entry) (f : entry)
      (message_data : dict) (w : World) :
  In f files -> encodable (name f) = false ->
  fst (load_files_strict files message_data w) = Raised UnicodeEncodeError
  /\ viewer_html_file (snd (load_files_strict files message_data w))
     = viewer_html_file w.
Proof.
  revert message_data w; induction files as [|g files IH];
    intros message_data w Hf N; [destruct Hf|].
  cbn [load_files_strict]. unfold bind.
  destruct Hf as [->|Hf].
  - rewrite load_strict_unprintable by exact N. now split.
  - destruct (load_strict_cases message_data g w) as [->|(d & line & ->)];
      [now split|].
    destruct (IH d (set_stdout w (stdout w ++ [line])) Hf N) as [A B].
    now split.
Qed.

(** On the strict standard output a conversation file whose name
    cannot be encoded ends the run, whether it can be read or not: the
    loop raises [UnicodeEncodeError] from [print], in the handler as
    well, [main] raises it, and the output file is not written. *)
Theorem unprintable_name_ends_run (w : World) (f : entry) :
  In f (discover (messages w)) ->
  encodable (name f) = false ->
  fst (main_strict w) = Raised UnicodeEncodeError
  /\ viewer_html_file (snd (main_strict w)) = viewer_html_file w.
Proof.
  intros Hf N. unfold main_strict, bind, glob.
  rewrite print_strict_encodable
    by (rewrite !encodable_app, !encodable_lit, encodable_str_of_nat;
        reflexivity).
  unfold print. cbn [fst snd].
  fold (discover (messages w)).
  set (w0 := set_stdout w _).
  destruct (load_files_strict_unprintable (discover (messages w)) f [] w0
              Hf N) as [A B].
  change (messages w0) with (messages w).
  destruct (load_files_strict (discover (messages w)) [] w0) as [[d|e] w1];
    cbn [fst snd] in *; [discriminate|].
  injection A as ->. split; [reflexivity|exact B].
Qed.

Lemma unprintable_name_ends_run_witness :
  let f := (56575 :: lit ".txt", File (list_byte_of_string "Hello")) in
  let w := mkWorld [alice; f] (File scenario_template)
                   (File (list_byte_of_string "old"))
                   (lit "viewer.html") [] in
  (In f (discover (messages w)) /\ encodable (name f) = false)
  /\ fst (main_strict w) = Raised UnicodeEncodeError
  /\ viewer_html_file (snd (main_strict w)) = viewer_html_file w.
Proof.
  cbv zeta.
  assert (Hf : In (56575 :: lit ".txt", File (list_byte_of_string "Hello"))
                  (discover
                     (messages
                        (mkWorld [alice;
                                  (56575 :: lit ".txt",
                                   File (list_byte_of_string "Hello"))]
                                 (File scenario_template)
                                 (File (list_byte_of_string "old"))
                                 (lit "viewer.html") []))))
    by (vm_compute; right; left; reflexivity).
  split; [split; [exact Hf | reflexivity]|].
  apply (unprintable_name_ends_run _ _ Hf). reflexivity.
Defined.

(** C6, where the code misses it: a discovered file that cannot be
    read and whose name is not UTF-8, on the strict standard output.
    The read failure is caught, but the diagnostic cannot be printed,
    the handler raises, and the run ends in the loop with the count of
    the files as its only line, the second file not looked at and no
    output file written. *)
Lemma failed_read_ends_strict_run :
  let e := OSError (lit "[Errno 13] Permission denied: 'messages/\udcff.txt'")
  in
  let f := (56575 :: lit ".txt", NoAccess e) in
  let w := mkWorld [f; alice] (File scenario_template) no_output
                   (lit "viewer.html") [] in
  In f (discover (messages w))
  /\ read (snd f) Ignore = Raised e
  /\ fst (main_strict w) = Raised UnicodeEncodeError
  /\ stdout (snd (main_strict w)) = [lit "Found 2 conversation files"]
  /\ viewer_html_file (snd (main_strict w)) = no_output
  /\ fst (load_files_strict (discover (messages w)) [] w)
     = Raised UnicodeEncodeError.
Proof.
  cbv zeta. split; [vm_compute; left; reflexivity|].
  split; [reflexivity|]. repeat (split; [vm_compute; reflexivity|]).
  vm_compute; reflexivity.
Qed.

(** ** The loop on files that can be printed *)

Lemma load_files_strict_run (files : list entry) (message_data : dict)
      (w : World) :
  (forall f, In f files -> printable f = true) ->
  load_files_strict files message_data w =
  (Ok (dataset files message_data),
   set_stdout w (stdout w ++ map load_line files)).
Proof.
  intros H. rewrite load_files_strict_printable by exact H.
  apply load_files_run.
Qed.

(** C8, as the code has it, for files whose names can be printed: a
    discovered file that can be opened is never skipped, valid UTF-8 or
    not. The loop returns, the file is a key of the dataset, its
    confirmation line is printed, and its content is the UTF-8 decoding
    of its bytes with the invalid sequences left out and, after that,
    every [\r\n] and every lone [\r] turned into [\n]. *)
Theorem load_decodes_lossily
        (listing : list entry) (f : entry) (data : bytes) (w : World) :
  NoDup (map name listing) ->
  (forall g, In g (discover listing) -> printable g = true) ->
  In f (discover listing) ->
  snd f = File data ->
  exists text message_data w',
    utf8_decode Ignore data = Ok text
    /\ load_files_strict (discover listing) [] w = (Ok message_data, w')
    /\ dict_get message_data (name f) = Some (universal_newlines text)
    /\ In (lit "Loaded: " ++ name f ++ lit " ("
           ++ str_of_nat (length (universal_newlines text))
           ++ lit " bytes)")
          (stdout w').
Proof.
  intros ND P Hf Hd. pose proof (NoDup_discover _ ND) as NDd.
  assert (Hr : read (snd f) Ignore
               = Ok (universal_newlines (decoded (utf8_scan data)))).
  { rewrite Hd. reflexivity. }
  exists (decoded (utf8_scan data)). eexists; eexists.
  split; [reflexivity|]. split; [now apply load_files_strict_run|]. split.
  - now rewrite (dataset_get _ _ _ NDd Hf), Hr.
  - cbn [stdout set_stdout]. apply in_or_app. right. apply in_map_iff.
    exists f. split; [|exact Hf]. unfold load_line. now rewrite Hr.
Qed.

Lemma load_decodes_lossily_witness :
  let f := (lit "carol.txt", File [x48; xff; x69; xc3; x28]) in
  let listing := [f; (lit "bob.txt",
                      NoAccess (OSError (lit "[Errno 13] Permission denied")))]
  in
  let w := mkWorld listing no_template no_output (lit "viewer.html") [] in
  (NoDup (map name listing)
   /\ (forall g, In g (discover listing) -> printable g = true)
   /\ In f (discover listing)
   /\ snd f = File [x48; xff; x69; xc3; x28])
  /\ exists text message_data w',
    utf8_decode Ignore [x48; xff; x69; xc3; x28] = Ok text
    /\ load_files_strict (discover listing) [] w = (Ok message_data, w')
    /\ dict_get message_data (name f) = Some (universal_newlines text)
    /\ In (lit "Loaded: " ++ name f ++ lit " ("
           ++ str_of_nat (length (universal_newlines text))
           ++ lit " bytes)")
          (stdout w').
Proof.
  cbv zeta.
  set (f := (lit "carol.txt", File [x48; xff; x69; xc3; x28])).
  set (listing := [f; (lit "bob.txt",
                       NoAccess (OSError (lit "[Errno 13] Permission denied")))]).
  assert (ND : NoDup (map name listing)).
  { repeat constructor; simpl; intuition discriminate. }
  assert (P : forall g, In g (discover listing) -> printable g = true).
  { intros g Hg. vm_compute in Hg.
    destruct Hg as [<-|[<-|[]]]; vm_compute; reflexivity. }
  assert (Hin : In f (discover listing))
    by (vm_compute; left; reflexivity).
  split; [split; [exact ND | split; [exact P | split;
         [exact Hin | reflexivity]]]|].
  apply (load_decodes_lossily listing f _ _ ND P Hin eq_refl).
Defined.

(** A discovered file whose read fails is skipped, when the lines of
    the report can be printed. The loop returns a dataset, the line
    [Error reading <name>: <text of the error>] is printed, the file is
    not a key of the dataset, every file that could be read has its own
    content as its entry, and the dataset is the one the loop builds
    when the failing file is not there at all. *)
Theorem failed_read_is_skipped
        (listing : list entry) (f : entry) (e : exn) (w : World) :
  NoDup (map name listing) ->
  (forall g, In g (discover listing) -> printable g = true) ->
  In f (discover listing) ->
  read (snd f) Ignore = Raised e ->
  exists message_data w',
    load_files_strict (discover listing) [] w = (Ok message_data, w')
    /\ In (lit "Error reading " ++ name f ++ lit ": " ++ exn_str e)
          (stdout w')
    /\ dict_get message_data (name f) = None
    /\ (forall g content,
          In g (discover listing) -> read (snd g) Ignore = Ok content ->
          dict_get message_data (name g) = Some content)
    /\ fst (load_files_strict
              (filter (fun g => negb (str_eqb (name g) (name f)))
                      (discover listing)) [] w)
       = Ok message_data.
Proof.
  intros ND P Hf Hr. pose proof (NoDup_discover _ ND) as NDd.
  eexists; eexists. split; [now apply load_files_strict_run|].
  split; [|split; [|split]].
  - cbn [stdout set_stdout]. apply in_or_app. right. apply in_map_iff.
    exists f. split; [|exact Hf]. unfold load_line. now rewrite Hr.
  - rewrite (dataset_get _ _ _ NDd Hf), Hr. reflexivity.
  - intros g content Hg Hc. now rewrite (dataset_get _ _ _ NDd Hg), Hc.
  - rewrite load_files_strict_run.
    + cbn [fst]. f_equal. apply dataset_without.
      intros g Hg E. exists e.
      now rewrite (distinct_names_eq _ g f NDd Hg Hf E).
    + intros g Hg. apply filter_In in Hg as [Hg _]. now apply P.
Qed.

Lemma failed_read_is_skipped_witness :
  let e := OSError (lit "[Errno 13] Permission denied: 'messages/bob.txt'") in
  let f := (lit "bob.txt", NoAccess e) in
  let listing := [(lit "alice.txt", File (list_byte_of_string "Hello")); f]
  in
  let w := mkWorld listing no_template no_output (lit "viewer.html") [] in
  (NoDup (map name listing)
   /\ (forall g, In g (discover listing) -> printable g = true)
   /\ In f (discover listing)
   /\ read (snd f) Ignore = Raised e)
  /\ exists message_data w',
    load_files_strict (discover listing) [] w = (Ok message_data, w')
    /\ In (lit "Error reading " ++ name f ++ lit ": " ++ exn_str e)
          (stdout w')
    /\ dict_get message_data (name f) = None
    /\ (forall g content,
          In g (discover listing) -> read (snd g) Ignore = Ok content ->
          dict_get message_data (name g) = Some content)
    /\ fst (load_files_strict
              (filter (fun g => negb (str_eqb (name g) (name f)))
                      (discover listing)) [] w)
       = Ok message_data.
Proof.
  cbv zeta.
  set (e := OSError (lit "[Errno 13] Permission denied: 'messages/bob.txt'")).
  set (f := (lit "bob.txt", NoAccess e)).
  set (listing := [(lit "alice.txt", File (list_byte_of_string "Hello")); f]).
  assert (ND : NoDup (map name listing)).
  { repeat constructor; simpl; intuition discriminate. }
  assert (P : forall g, In g (discover listing) -> printable g = true).
  { intros g Hg. vm_compute in Hg.
    destruct Hg as [<-|[<-|[]]]; vm_compute; reflexivity. }
  assert (Hin : In f (discover listing))
    by (vm_compute; right; left; reflexivity).
  split; [split; [exact ND | split; [exact P | split;
         [exact Hin | reflexivity]]]|].
  apply (failed_read_is_skipped listing f e _ ND P Hin eq_refl).
Defined.

(** ** One file *)

Lemma load_strict_file (message_data : dict) (txt_file : entry)
      (content : str) (w : World) :
  encodable (name txt_file) = true ->
  read (snd txt_file) Ignore = Ok content ->
  load_strict message_data txt_file w
  = (Ok (dict_set message_data (name txt_file) content),
     set_stdout w
       (stdout w
        ++ [lit "Loaded: " ++ name txt_file ++ lit " ("
            ++ str_of_nat (length content) ++ lit " bytes)"])).
Proof.
  intros N R.
  rewrite load_strict_printable by (now apply (printable_readable _ content)).
  rewrite load_run. unfold load_line. cbn [dataset]. now rewrite R.
Qed.

(** A file that can be opened and whose name can be printed is loaded
    whatever bytes it holds: the loop body stores a content under its
    name and prints [Loaded: <name> (<n> bytes)] with [n] the number of
    characters of the content. The content has no carriage return and
    no character that UTF-8 cannot encode, and [n] is at most the
    number of bytes of the file. *)
Theorem load_file_content
        (message_data : dict) (txt_file : entry) (data : bytes) (w : World) :
  snd txt_file = File data ->
  encodable (name txt_file) = true ->
  exists content,
    load_strict message_data txt_file w
    = (Ok (dict_set message_data (name txt_file) content),
       set_stdout w
         (stdout w
          ++ [lit "Loaded: " ++ name txt_file ++ lit " ("
              ++ str_of_nat (length content) ++ lit " bytes)"]))
    /\ ~ In CR content
    /\ encodable content = true
    /\ (length content <= length data)%nat.
Proof.
  intros Hd N.
  destruct (read (snd txt_file) Ignore) as [content|e] eqn:R;
    [|rewrite Hd in R; discriminate].
  exists content. split; [now apply load_strict_file|].
  destruct (read_sound _ _ _ R) as (A & B & C). auto.
Qed.

Lemma load_file_content_witness :
  let data := [x48; xff; x0d; x0a; xc3; xa9] in
  let txt_file := (lit "carol.txt", File data) in
  let w := mkWorld [txt_file] no_template no_output (lit "viewer.html") [] in
  (snd txt_file = File data /\ encodable (name txt_file) = true)
  /\ exists content,
    load_strict [] txt_file w
    = (Ok (dict_set [] (name txt_file) content),
       set_stdout w
         (stdout w
          ++ [lit "Loaded: " ++ name txt_file ++ lit " ("
              ++ str_of_nat (length content) ++ lit " bytes)"]))
    /\ ~ In CR content
    /\ encodable content = true
    /\ (length content <= length data)%nat.
Proof.
  cbv zeta. split; [split; reflexivity|].
  apply (load_file_content [] (lit "carol.txt",
                               File [x48; xff; x0d; x0a; xc3; xa9]));
    reflexivity.
Defined.

(** A file that holds the UTF-8 encoding of a text without carriage
    returns, and whose name can be printed, is loaded as exactly that
    text: the loop body stores the text under the name of the file and
    prints [Loaded: <name> (<n> bytes)] with [n] the number of
    characters of the text. *)
Theorem load_valid_utf8
        (message_data : dict) (txt_file : entry) (text : str) (data : bytes)
        (w : World) :
  snd txt_file = File data ->
  encodable (name txt_file) = true ->
  utf8_encode text = Some data ->
  ~ In CR text ->
  load_strict message_data txt_file w
  = (Ok (dict_set message_data (name txt_file) text),
     set_stdout w
       (stdout w
        ++ [lit "Loaded: " ++ name txt_file ++ lit " ("
            ++ str_of_nat (length text) ++ lit " bytes)"])).
Proof.
  intros Hd N He Hc. apply load_strict_file; [exact N|].
  rewrite Hd. unfold read. rewrite (utf8_decode_encode _ _ Ignore He).
  now rewrite (universal_newlines_without_CR _ Hc).
Qed.

Lemma load_valid_utf8_witness :
  let text := [99; 97; 102; 233; 10; 8364; 128512] in
  let data := [x63; x61; x66; xc3; xa9; x0a; xe2; x82; xac;
               xf0; x9f; x98; x80] in
  let txt_file := (lit "cafe.txt", File data) in
  let w := mkWorld [txt_file] no_template no_output (lit "viewer.html") [] in
  (snd txt_file = File data /\ encodable (name txt_file) = true
   /\ utf8_encode text = Some data /\ ~ In CR text)
  /\ load_strict [] txt_file w
     = (Ok (dict_set [] (name txt_file) text),
        set_stdout w
          (stdout w
           ++ [lit "Loaded: " ++ name txt_file ++ lit " ("
               ++ str_of_nat (length text) ++ lit " bytes)"])).
Proof.
  cbv zeta.
  assert (Hc : ~ In CR [99; 97; 102; 233; 10; 8364; 128512])
    by (simpl; intuition discriminate).
  split; [split; [reflexivity | split; [reflexivity | split;
         [vm_compute; reflexivity | exact Hc]]]|].
  apply (load_valid_utf8 [] (lit "cafe.txt", File _)
                         [99; 97; 102; 233; 10; 8364; 128512]
                         [x63; x61; x66; xc3; xa9; x0a; xe2; x82; xac;
                          xf0; x9f; x98; x80]);
    [reflexivity | reflexivity | vm_compute; reflexivity | exact Hc].
Defined.

(** The number in the confirmation line is a number of characters. For
    a file that holds the UTF-8 encoding of a text with a character
    outside ASCII, the line printed is [Loaded: <name> (<n> bytes)] with
    [n] below the size of the file in bytes. *)
Theorem loaded_count_below_size
        (message_data : dict) (txt_file : entry) (text : str) (data : bytes)
        (w : World) :
  snd txt_file = File data ->
  encodable (name txt_file) = true ->
  utf8_encode text = Some data ->
  existsb non_ascii text = true ->
  exists content n,
    load_strict message_data txt_file w
    = (Ok (dict_set message_data (name txt_file) content),
       set_stdout w
         (stdout w
          ++ [lit "Loaded: " ++ name txt_file ++ lit " ("
              ++ str_of_nat n ++ lit " bytes)"]))
    /\ n = length content
    /\ (n < length data)%nat.
Proof.
  intros Hd N He Hn.
  exists (universal_newlines text), (length (universal_newlines text)).
  split; [|split; [reflexivity|]].
  - apply load_strict_file; [exact N|]. rewrite Hd. unfold read.
    now rewrite (utf8_decode_encode _ _ Ignore He).
  - destruct (utf8_encode_length _ _ He) as [_ L]. specialize (L Hn).
    destruct (universal_newlines_sound (length text) text (le_n _))
      as [_ U]. lia.
Qed.

Lemma loaded_count_below_size_witness :
  let text := [99; 97; 102; 233] in
  let data := [x63; x61; x66; xc3; xa9] in
  let txt_file := (lit "cafe.txt", File data) in
  let w := mkWorld [txt_file] no_template no_output (lit "viewer.html") [] in
  (snd txt_file = File data /\ encodable (name txt_file) = true
   /\ utf8_encode text = Some data /\ existsb non_ascii text = true)
  /\ exists content n,
    load_strict [] txt_file w
    = (Ok (dict_set [] (name txt_file) content),
       set_stdout w
         (stdout w
          ++ [lit "Loaded: " ++ name txt_file ++ lit " ("
              ++ str_of_nat n ++ lit " bytes)"]))
    /\ n = length content
    /\ (n < length data)%nat.
Proof.
  cbv zeta.
  split; [split; [reflexivity | split; [reflexivity | split;
         vm_compute; reflexivity]]|].
  apply (loaded_count_below_size [] (lit "cafe.txt", File _)
                                 [99; 97; 102; 233]
                                 [x63; x61; x66; xc3; xa9]);
    [reflexivity | reflexivity | vm_compute; reflexivity
     | vm_compute; reflexivity].
Defined.

(** ** The whole run on the strict standard output *)

(** When the line of every discovered file and the output path can be
    printed, no [print] raises: the run on the strict standard output
    ends as the run on the standard output that takes every line, with
    the same output file and the same lines printed. *)
Theorem main_strict_agrees (w : World) :
  (forall f, In f (discover (messages w)) -> printable f = true) ->
  encodable (viewer_html_path w) = true ->
  main_strict w = main w.
Proof. exact (main_strict_printable w). Qed.

Lemma main_strict_agrees_witness :
  let w := scenario [alice; orphaned] None (lit "viewer.html") [] in
  ((forall f, In f (discover (messages w)) -> printable f = true)
   /\ encodable (viewer_html_path w) = true)
  /\ main_strict w = main w.
Proof.
  cbv zeta.
  assert (P : forall f,
             In f (discover (messages (scenario [alice; orphaned] None
                                                (lit "viewer.html") []))) ->
             printable f = true).
  { intros f Hf. vm_compute in Hf. destruct Hf as [<-|[]]. reflexivity. }
  split; [split; [exact P | reflexivity]|].
  apply (main_strict_agrees _ P). reflexivity.
Defined.

(** A run that succeeds prints the count of the files found, one line
    for each of them in the order of the listing, and the summary with
    the number of files that could be read. *)
Theorem main_report (w : World) :
  NoDup (map name (messages w)) ->
  (forall f, In f (discover (messages w)) -> printable f = true) ->
  encodable (viewer_html_path w) = true ->
  fst (main_strict w) = Ok tt ->
  stdout (snd (main_strict w)) =
  stdout w
  ++ (lit "Found " ++ str_of_nat (length (discover (messages w)))
      ++ lit " conversation files")
  :: map (fun f =>
            match read (snd f) Ignore with
            | Ok content =>
                lit "Loaded: " ++ name f ++ lit " ("
                ++ str_of_nat (length content) ++ lit " bytes)"
            | Raised e =>
                lit "Error reading " ++ name f ++ lit ": " ++ exn_str e
            end)
         (discover (messages w))
  ++ [[LF; CHECK_MARK] ++ lit " Generated viewer with "
      ++ str_of_nat (length (filter readable (discover (messages w))))
      ++ lit " conversations";
      CHECK_MARK :: lit " Saved to: " ++ viewer_html_path w;
      LF :: lit "Open viewer.html in your browser to view your messages!"].
Proof.
  intros ND P Q. rewrite (main_strict_printable w P Q).
  exact (main_stdout_success w ND).
Qed.

Lemma main_report_witness :
  let w := mkWorld [(lit "zoe.txt", File [xc3; xa9; x0d; x0a]);
                    orphaned;
                    (lit "bob.txt", no_such_file "messages/bob.txt")]
                   (File scenario_template) no_output
                   (lit "/srv/viewer.html") [lit "before"] in
  (NoDup (map name (messages w))
   /\ (forall f, In f (discover (messages w)) -> printable f = true)
   /\ encodable (viewer_html_path w) = true
   /\ fst (main_strict w) = Ok tt)
  /\ stdout (snd (main_strict w)) =
     stdout w
     ++ (lit "Found " ++ str_of_nat (length (discover (messages w)))
         ++ lit " conversation files")
     :: map (fun f =>
               match read (snd f) Ignore with
               | Ok content =>
                   lit "Loaded: " ++ name f ++ lit " ("
                   ++ str_of_nat (length content) ++ lit " bytes)"
               | Raised e =>
                   lit "Error reading " ++ name f ++ lit ": " ++ exn_str e
               end)
            (discover (messages w))
     ++ [[LF; CHECK_MARK] ++ lit " Generated viewer with "
         ++ str_of_nat (length (filter readable (discover (messages w))))
         ++ lit " conversations";
         CHECK_MARK :: lit " Saved to: " ++ viewer_html_path w;
         LF :: lit "Open viewer.html in your browser to view your messages!"].
Proof.
  cbv zeta.
  set (w := mkWorld [(lit "zoe.txt", File [xc3; xa9; x0d; x0a]);
                     orphaned;
                     (lit "bob.txt", no_such_file "messages/bob.txt")]
                    (File scenario_template) no_output
                    (lit "/srv/viewer.html") [lit "before"]).
  assert (ND : NoDup (map name (messages w))).
  { repeat constructor; simpl; intuition discriminate. }
  assert (P : forall f, In f (discover (messages w)) -> printable f = true).
  { intros f Hf. vm_compute in Hf.
    destruct Hf as [<-|[<-|[]]]; vm_compute; reflexivity. }
  assert (Q : encodable (viewer_html_path w) = true) by reflexivity.
  assert (R : fst (main_strict w) = Ok tt) by (vm_compute; reflexivity).
  split; [split; [exact ND | split; [exact P | split; [exact Q | exact R]]]|].
  exact (main_report w ND P Q R).
Defined.

(** A run that raises, when the lines of the files and the output path
    can be printed, has printed the count of the files and the line of
    every file and nothing else: the summary never follows a failure.
    The failure is that of reading the template or that of opening the
    output file. *)
Theorem main_failure (w : World) (e : exn) :
  (forall f, In f (discover (messages w)) -> printable f = true) ->
  encodable (viewer_html_path w) = true ->
  fst (main_strict w) = Raised e ->
  stdout (snd (main_strict w)) =
    stdout w
    ++ (lit "Found " ++ str_of_nat (length (discover (messages w)))
        ++ lit " conversation files")
    :: map (fun f =>
              match read (snd f) Ignore with
              | Ok content =>
                  lit "Loaded: " ++ name f ++ lit " ("
                  ++ str_of_nat (length content) ++ lit " bytes)"
              | Raised e =>
                  lit "Error reading " ++ name f ++ lit ": " ++ exn_str e
              end)
           (discover (messages w))
  /\ (read (viewer_template_html w) Strict = Raised e
      \/ viewer_html_file w = NoAccess e).
Proof.
  intros P Q. rewrite (main_strict_printable w P Q). intros R.
  destruct (main_stdout_failure w e R) as [A [B|[B|(_ & t & T & U)]]].
  - split; [exact A|now left].
  - split; [exact A|now right].
  - exfalso. destruct (read_sound _ _ _ T) as (_ & E & _).
    assert (N : forall f, In f (discover (messages w)) ->
                          encodable (name f) = true)
      by (intros f Hf; apply printable_name; now apply P).
    destruct (utf8_encode_encodable _ (encodable_document _ _ N E))
      as [data D].
    rewrite D in U. discriminate.
Qed.

Lemma main_failure_witness :
  let e := OSError (lit "[Errno 13] Permission denied: 'viewer.html'") in
  let w := mkWorld [alice] (File scenario_template) (NoAccess e)
                   (lit "viewer.html") [] in
  ((forall f, In f (discover (messages w)) -> printable f = true)
   /\ encodable (viewer_html_path w) = true
   /\ fst (main_strict w) = Raised e)
  /\ stdout (snd (main_strict w)) =
       stdout w
       ++ (lit "Found " ++ str_of_nat (length (discover (messages w)))
           ++ lit " conversation files")
       :: map (fun f =>
                 match read (snd f) Ignore with
                 | Ok content =>
                     lit "Loaded: " ++ name f ++ lit " ("
                     ++ str_of_nat (length content) ++ lit " bytes)"
                 | Raised e =>
                     lit "Error reading " ++ name f ++ lit ": " ++ exn_str e
                 end)
              (discover (messages w))
  /\ (read (viewer_template_html w) Strict = Raised e
      \/ viewer_html_file w = NoAccess e).
Proof.
  cbv zeta.
  set (e := OSError (lit "[Errno 13] Permission denied: 'viewer.html'")).
  set (w := mkWorld [alice] (File scenario_template) (NoAccess e)
                    (lit "viewer.html") []).
  assert (P : forall f, In f (discover (messages w)) -> printable f = true).
  { intros f Hf. vm_compute in Hf. destruct Hf as [<-|[]]. reflexivity. }
  assert (Q : encodable (viewer_html_path w) = true) by reflexivity.
  assert (R : fst (main_strict w) = Raised e) by (vm_compute; reflexivity).
  split; [split; [exact P | split; [exact Q | exact R]]|].
  exact (main_failure w e P Q R).
Defined.

(** What the output file held before, and what was printed before, has
    no part in a run: with the same conversation files, whose lines can
    be printed, the same readable template, output paths that can be
    printed and opened, two runs end alike and leave the same output
    file. The file is replaced, never extended. *)
Theorem main_overwrites_output (w1 w2 : World) (template : str) :
  messages w1 = messages w2 ->
  viewer_template_html w1 = viewer_template_html w2 ->
  (forall f, In f (discover (messages w1)) -> printable f = true) ->
  encodable (viewer_html_path w1) = true ->
  encodable (viewer_html_path w2) = true ->
  read (viewer_template_html w1) Strict = Ok template ->
  (forall e, viewer_html_file w1 <> NoAccess e) ->
  (forall e, viewer_html_file w2 <> NoAccess e) ->
  fst (main_strict w1) = fst (main_strict w2)
  /\ viewer_html_file (snd (main_strict w1))
     = viewer_html_file (snd (main_strict w2)).
Proof.
  intros M T P Q1 Q2 R V1 V2.
  rewrite (main_strict_printable w1 P Q1).
  rewrite M in P. rewrite (main_strict_printable w2 P Q2).
  exact (main_output_same w1 w2 template M T R V1 V2).
Qed.

Lemma main_overwrites_output_witness :
  let w1 := scenario [alice; orphaned] None (lit "viewer.html") [] in
  let w2 := scenario [alice; orphaned] (Some [x6f; x6c; x64])
                     (lit "out/viewer.html") [lit "earlier"] in
  (messages w1 = messages w2
   /\ viewer_template_html w1 = viewer_template_html w2
   /\ (forall f, In f (discover (messages w1)) -> printable f = true)
   /\ encodable (viewer_html_path w1) = true
   /\ encodable (viewer_html_path w2) = true
   /\ read (viewer_template_html w1) Strict
      = Ok (lit "<script>window.IMESSAGE_DATA = {};</script>")
   /\ (forall e, viewer_html_file w1 <> NoAccess e)
   /\ (forall e, viewer_html_file w2 <> NoAccess e))
  /\ fst (main_strict w1) = fst (main_strict w2)
  /\ viewer_html_file (snd (main_strict w1))
     = viewer_html_file (snd (main_strict w2)).
Proof.
  cbv zeta.
  set (w1 := scenario [alice; orphaned] None (lit "viewer.html") []).
  set (w2 := scenario [alice; orphaned] (Some [x6f; x6c; x64])
                      (lit "out/viewer.html") [lit "earlier"]).
  assert (P : forall f, In f (discover (messages w1)) -> printable f = true).
  { intros f Hf. vm_compute in Hf. destruct Hf as [<-|[]]. reflexivity. }
  assert (R : read (viewer_template_html w1) Strict
              = Ok (lit "<script>window.IMESSAGE_DATA = {};</script>"))
    by (vm_compute; reflexivity).
  assert (V1 : forall e, viewer_html_file w1 <> NoAccess e)
    by (intros e; discriminate).
  assert (V2 : forall e, viewer_html_file w2 <> NoAccess e)
    by (intros e; discriminate).
  split; [split; [reflexivity | split; [reflexivity | split; [exact P |
         split; [reflexivity | split; [reflexivity | split; [exact R |
         split; [exact V1 | exact V2]]]]]]]|].
  exact (main_overwrites_output w1 w2 _ eq_refl eq_refl P eq_refl eq_refl
                                R V1 V2).
Defined.

(** The run on the strict standard output writes the document. For a
    directory with pairwise distinct names, files whose lines can be
    printed, a template with the marker, and an output path that can be
    printed and opened: [main] returns normally, the output file holds
    the UTF-8 encoding of the template text with the assignment of the
    serialized dataset in the place of its first marker, and decoding
    the file gives that document back. *)
Theorem main_writes_document (w : World) (prefix suffix : str) :
  NoDup (map name (messages w)) ->
  (forall f, In f (discover (messages w)) -> printable f = true) ->
  encodable (viewer_html_path w) = true ->
  read (viewer_template_html w) Strict = Ok (prefix ++ MARKER ++ suffix) ->
  occurrences MARKER prefix = O ->
  (forall e, viewer_html_file w <> NoAccess e) ->
  exists data data_json message_data,
    fst (main_strict w) = Ok tt
    /\ viewer_html_file (snd (main_strict w)) = File data
    /\ utf8_encode (prefix ++ lit "window.IMESSAGE_DATA = " ++ data_json
                    ++ lit ";" ++ suffix) = Some data
    /\ utf8_decode Strict data
       = Ok (prefix ++ lit "window.IMESSAGE_DATA = " ++ data_json
             ++ lit ";" ++ suffix)
    /\ json_loads data_json = Some message_data
    /\ forall f, In f (discover (messages w)) ->
         dict_get message_data (name f) =
         match read (snd f) Ignore with
         | Ok content => Some content
         | Raised _ => None
         end.
Proof.
  intros ND P Q T Pm V. pose proof (NoDup_discover _ ND) as NDd.
  assert (N : forall f, In f (discover (messages w)) ->
                        encodable (name f) = true)
    by (intros f Hf; apply printable_name; now apply P).
  destruct (read_sound _ _ _ T) as (_ & E & _).
  destruct (utf8_encode_encodable _ (encodable_document _ _ N E))
    as [data U].
  exists data, (json_dumps (dataset (discover (messages w)) [])),
         (dataset (discover (messages w)) []).
  rewrite (main_strict_printable w P Q). rewrite main_cases. cbv zeta.
  rewrite T, U.
  rewrite (inject_first prefix suffix _ Pm), assignment_app in U.
  split; [|split; [|split; [exact U|split; [|split]]]].
  - destruct (viewer_html_file w) as [|e|]; try reflexivity.
    now destruct (V e).
  - destruct (viewer_html_file w) as [|e|]; try reflexivity.
    now destruct (V e).
  - exact (utf8_decode_encode _ _ Strict U).
  - apply json_loads_dumps. now apply dataset_distinct.
  - intros f Hf. now rewrite (dataset_get _ _ _ NDd Hf).
Qed.

Lemma main_writes_document_witness :
  let w := mkWorld [(lit "zoe.txt", File [xc3; xa9; xff; x0d; x0a; x22]);
                    orphaned;
                    (lit "bob.txt",
                     NoAccess (OSError (lit "[Errno 13] Permission denied")))]
                   (File scenario_template) no_output
                   (lit "viewer.html") [] in
  (NoDup (map name (messages w))
   /\ (forall f, In f (discover (messages w)) -> printable f = true)
   /\ encodable (viewer_html_path w) = true
   /\ read (viewer_template_html w) Strict
      = Ok (lit "<script>" ++ MARKER ++ lit "</script>")
   /\ occurrences MARKER (lit "<script>") = O
   /\ (forall e, viewer_html_file w <> NoAccess e))
  /\ exists data data_json message_data,
    fst (main_strict w) = Ok tt
    /\ viewer_html_file (snd (main_strict w)) = File data
    /\ utf8_encode (lit "<script>" ++ lit "window.IMESSAGE_DATA = "
                    ++ data_json ++ lit ";" ++ lit "</script>") = Some data
    /\ utf8_decode Strict data
       = Ok (lit "<script>" ++ lit "window.IMESSAGE_DATA = " ++ data_json
             ++ lit ";" ++ lit "</script>")
    /\ json_loads data_json = Some message_data
    /\ forall f, In f (discover (messages w)) ->
         dict_get message_data (name f) =
         match read (snd f) Ignore with
         | Ok content => Some content
         | Raised _ => None
         end.
Proof.
  cbv zeta.
  set (w := mkWorld [(lit "zoe.txt", File [xc3; xa9; xff; x0d; x0a; x22]);
                     orphaned;
                     (lit "bob.txt",
                      NoAccess (OSError (lit "[Errno 13] Permission denied")))]
                    (File scenario_template) no_output
                    (lit "viewer.html") []).
  assert (ND : NoDup (map name (messages w))).
  { repeat constructor; simpl; intuition discriminate. }
  assert (P : forall f, In f (discover (messages w)) -> printable f = true).
  { intros f Hf. vm_compute in Hf.
    destruct Hf as [<-|[<-|[]]]; vm_compute; reflexivity. }
  assert (Q : encodable (viewer_html_path w) = true) by reflexivity.
  assert (T : read (viewer_template_html w) Strict
              = Ok (lit "<script>" ++ MARKER ++ lit "</script>"))
    by (vm_compute; reflexivity).
  assert (Z : occurrences MARKER (lit "<script>") = O)
    by (vm_compute; reflexivity).
  assert (V : forall e, viewer_html_file w <> NoAccess e)
    by (intros e; discriminate).
  split; [split; [exact ND | split; [exact P | split; [exact Q | split;
         [exact T | split; [exact Z | exact V]]]]]|].
  exact (main_writes_document w _ _ ND P Q T Z V).
Defined.
